(** * db-data-manipulate: the MongoDB driver (src/lib/drivers/mongodb/index.js)

    A shallow embedding of [MongoDBDriver]: [doBackup], [doRestore] and the
    private methods they call, over an explicit world (the database served
    by the connection, the file system, the clock, the trace of logger and
    spinner calls, and the drop requests still in flight).

    Conventions.
    - A JavaScript string is the list of its UTF-16 code units.
    - A promise is modelled by its eventual state: [Resolved], [Rejected]
      or [Unsettled] (it never settles).  [await] is the bind of the monad
      [M]: a rejection is thrown on, an unsettled promise stops the caller
      for good.
    - An ['error'] event without a listener is an uncaught exception: it
      is the last event of the trace, and what was awaited stays
      [Unsettled].
    - The modules that are required but are not part of this driver
      (constants, parsers, the MongoDB client, fs) are parameters,
      gathered in [Env], or are modelled by the small API at the head of
      the section [Driver]. *)

From Stdlib Require Import String Ascii NArith Arith Bool List Permutation Lia.
Import ListNotations.

Set Implicit Arguments.

(** ** JavaScript strings *)

Module Js.

Definition jsstring := list N.

(** The code units of an ASCII literal. *)
Definition lit (s : string) : jsstring :=
  map N_of_ascii (list_ascii_of_string s).

Fixpoint eqs (a b : jsstring) : bool :=
  match a, b with
  | [], [] => true
  | c :: a', d :: b' => N.eqb c d && eqs a' b'
  | _, _ => false
  end.

(** [s.startsWith(p)] *)
Fixpoint startsWith (s p : jsstring) {struct p} : bool :=
  match p with
  | [] => true
  | c :: p' =>
      match s with
      | [] => false
      | d :: s' => N.eqb d c && startsWith s' p'
      end
  end.

(** [s.endsWith(p)]: the last [p.length] code units of [s] are [p]. *)
Definition endsWith (s p : jsstring) : bool :=
  (length p <=? length s) && eqs (skipn (length s - length p) s) p.

(** [s.includes(p)] *)
Fixpoint includes (s p : jsstring) : bool :=
  startsWith s p ||
  match s with
  | [] => false
  | _ :: s' => includes s' p
  end.

(** [s.replace(pat, rep)] with a string pattern: only the first occurrence
    of [pat] is replaced.  ([rep] is taken literally; the driver passes the
    empty string, which has no [$] patterns.) *)
Fixpoint replace (s pat rep : jsstring) : jsstring :=
  if startsWith s pat then rep ++ skipn (length pat) s
  else match s with
       | [] => []
       | c :: s' => c :: replace s' pat rep
       end.

(** [xs.join(sep)] *)
Fixpoint join (sep : jsstring) (xs : list jsstring) : jsstring :=
  match xs with
  | [] => []
  | [x] => x
  | x :: rest => x ++ sep ++ join sep rest
  end.

(** Template-literal rendering of a non-negative integer (decimal digits;
    exponent notation starts at 1e21, far above epoch milliseconds and
    collection sizes). *)
Fixpoint digits (d : Decimal.uint) : jsstring :=
  match d with
  | Decimal.Nil => []
  | Decimal.D0 d => 48%N :: digits d
  | Decimal.D1 d => 49%N :: digits d
  | Decimal.D2 d => 50%N :: digits d
  | Decimal.D3 d => 51%N :: digits d
  | Decimal.D4 d => 52%N :: digits d
  | Decimal.D5 d => 53%N :: digits d
  | Decimal.D6 d => 54%N :: digits d
  | Decimal.D7 d => 55%N :: digits d
  | Decimal.D8 d => 56%N :: digits d
  | Decimal.D9 d => 57%N :: digits d
  end.

Definition numberToString (n : N) : jsstring := digits (N.to_uint n).

(** *** Regular expressions, as matchers in continuation-passing style *)

Definition matcher := (jsstring -> bool) -> jsstring -> bool.

(** Line terminators: the code units [.] does not match (no [s] flag). *)
Definition isLineTerminator (c : N) : bool :=
  (c =? 10)%N || (c =? 13)%N || (c =? 8232)%N || (c =? 8233)%N.

Definition noLineTerminator (s : jsstring) : bool :=
  forallb (fun c => negb (isLineTerminator c)) s.

(** [.*]: any run of non-terminators, every length tried. *)
Fixpoint dotStar (k : jsstring -> bool) (s : jsstring) : bool :=
  k s ||
  match s with
  | [] => false
  | c :: s' => negb (isLineTerminator c) && dotStar k s'
  end.

(** A literal run of code units. *)
Definition chars (p : jsstring) : matcher :=
  fun k s => startsWith s p && k (skipn (length p) s).

(** [$] without the [m] flag: the end of the input. *)
Definition atEnd (s : jsstring) : bool :=
  match s with
  | [] => true
  | _ :: _ => false
  end.

(** Errors that travel through [reject] and [throw]: a plain string, or an
    [Error] object with its [name] and [message]. *)
Inductive jserror :=
| ErrString (s : jsstring)
| ErrObject (name message : jsstring).

(** [`${err}`]: a string is itself, an [Error] object goes through
    [Error.prototype.toString]. *)
Definition toString (e : jserror) : jsstring :=
  match e with
  | ErrString s => s
  | ErrObject name message =>
      match name, message with
      | [], _ => message
      | _, [] => name
      | _, _ => name ++ lit ": " ++ message
      end
  end.

End Js.
Import Js.

(** [const systemRegex = /^.*system\..*$/;]  ([^] without the [m] flag only
    holds at index 0, so [test] can only succeed from the start of the
    input.) *)
Definition systemRegex : jsstring -> bool :=
  dotStar (chars (lit "system.") (dotStar atEnd)).

(** ** The environment of the driver *)

(** What the read stream of [collection.find().stream()] does: it ends, or
    it emits ['error'] after having delivered some documents. *)
Inductive stream_result :=
| StreamEnd
| StreamError (delivered : nat) (message : jsstring).

(** The parts that are required from other modules, and the choices that
    belong to the outside world.
    - [FORMATS]: [Object.values(FORMATS)] of ../../constants, in order;
    - [backupParsersOptions format]: what [transform] and [pipe] of
      ./parsers leave in the file for the documents the stream delivered;
    - [restoreParsersOptions format]: [readData] of ./parsers on the
      content of a file; [None] when its promise does not resolve;
    - [cursor name]: the fate of the read stream over collection [name];
    - [read_fault path]: the message of a read error on the file [path];
    - [write_fault path]: the message of the ['error'] event of a write
      stream on [path] that cannot be opened or written for a reason the
      file system of the model does not show (rights, space);
    - [bulk_fault name stored documents]: when [bulkWrite] of [documents]
      into the collection [name], which holds [stored], fails at a write
      (a duplicate key), the number of documents inserted before it;
    - [drop_delay name]: how many [createCollection] calls are served
      before the drop request for [name] is (the requests of
      [_dropCollections] are never awaited);
    - [null_client]: the message of the [TypeError] raised by [client.db]
      when the connection failed and [client] is undefined.
    [this.format] is taken to be a key of both parser tables (the
    configuration is validated by the caller). *)
Record Env := {
  doc : Type;
  bytes : Type;
  FORMATS : list jsstring;
  backupParsersOptions : jsstring -> list doc -> bytes;
  restoreParsersOptions : jsstring -> bytes -> option (list doc);
  cursor : jsstring -> stream_result;
  read_fault : jsstring -> option jsstring;
  write_fault : jsstring -> option jsstring;
  bulk_fault : jsstring -> list doc -> list doc -> option nat;
  drop_delay : jsstring -> nat;
  null_client : jsstring
}.

(** The constructor argument: [this.uri], [this.database], [this.path],
    [this.format]. *)
Record config := {
  uri : jsstring;
  database : jsstring;
  path : jsstring;
  format : jsstring
}.

(** What the logger, the spinner and the process show.  [Uncaught] is an
    ['error'] event nobody listens to: Node throws it, and the process
    ends. *)
Inductive event :=
| LogInfo (message : jsstring)
| SpinnerRun (label : jsstring)
| SpinnerStop
| Uncaught (message : jsstring).

(** The state of a promise once nothing more can happen to it. *)
Inductive settled (A : Type) :=
| Resolved (a : A)
| Rejected (e : jserror)
| Unsettled.
Arguments Rejected {A} e.
Arguments Unsettled {A}.

Section Driver.

Variable E : Env.

(** A collection: its name and its documents, in insertion order.  The
    database lists its collections in the order of the list. *)
Definition collection : Type := jsstring * list (doc E).
Definition dbstate : Type := list collection.

Definition collectionName (c : collection) : jsstring := fst c.

(** The file system: paths are compared as strings, an entry is a
    directory or a file.  The entries of a directory are the paths that
    extend it by a separator and a name, a name having no separator: a
    file lies in the directory its path names, and that directory has to
    be there for the file to be opened. *)
Inductive node :=
| Dir
| File (content : bytes E).

Definition filesystem : Type := list (jsstring * node).

Record world := World {
  online : bool;
  db : dbstate;
  fs : filesystem;
  clock : N;
  trace : list event;
  inflight : list (jsstring * nat)
}.

Definition set_db (d : dbstate) (w : world) : world :=
  World (online w) d (fs w) (clock w) (trace w) (inflight w).
Definition set_fs (f : filesystem) (w : world) : world :=
  World (online w) (db w) f (clock w) (trace w) (inflight w).
Definition set_inflight (q : list (jsstring * nat)) (w : world) : world :=
  World (online w) (db w) (fs w) (clock w) (trace w) q.
Definition emit (e : event) (w : world) : world :=
  World (online w) (db w) (fs w) (clock w) (trace w ++ [e]) (inflight w).

Fixpoint lookup (V : Type) (k : jsstring) (l : list (jsstring * V)) : option V :=
  match l with
  | [] => None
  | (k', v) :: l' => if eqs k' k then Some v else lookup k l'
  end.

(** *** The database, as the client sees it *)

(** [collection.drop()] *)
Definition drop (name : jsstring) (d : dbstate) : dbstate :=
  filter (fun c => negb (eqs (collectionName c) name)) d.

(** [db.createCollection(name)]: the handle of the collection, created
    empty when there is none of that name (the 3.x client, not in strict
    mode, hands back an existing collection).  The name is taken to be one
    the client accepts: it refuses the empty name, a name with two dots in
    a row or with a dot at either end. *)
Definition create (name : jsstring) (d : dbstate) : dbstate :=
  match lookup name d with
  | Some _ => d
  | None => d ++ [(name, [])]
  end.

(** The documents of [insertOne] operations that succeed are appended (to
    a new collection when the name is gone). *)
Fixpoint insertAll (name : jsstring) (documents : list (doc E)) (d : dbstate) : dbstate :=
  match d with
  | [] => [(name, documents)]
  | c :: d' =>
      if eqs (collectionName c) name then (fst c, snd c ++ documents) :: d'
      else c :: insertAll name documents d'
  end.

Definition stored (name : jsstring) (d : dbstate) : list (doc E) :=
  match lookup name d with
  | Some documents => documents
  | None => []
  end.

(** The result of [bulkWrite], as far as the driver reads it. *)
Record BulkWriteResult := {
  insertedCount : nat;
  writeErrors : nat;
  writeConcernErrors : nat
}.

(** [collection.bulkWrite] of one [insertOne] per document, in order.  The
    promise rejects ([None]) when there is no operation, and when a write
    fails: the documents before that one are in.  Otherwise it resolves
    with the result. *)
Definition bulkWrite (name : jsstring) (documents : list (doc E)) (d : dbstate) :
    option BulkWriteResult * dbstate :=
  match documents with
  | [] => (None, d)
  | _ :: _ =>
      match bulk_fault E name (stored name d) documents with
      | Some n => (None, insertAll name (firstn n documents) d)
      | None =>
          (Some {| insertedCount := length documents;
                   writeErrors := 0;
                   writeConcernErrors := 0 |},
           insertAll name documents d)
      end
  end.

(** The drop requests in flight: those that are due are served, the others
    come one step closer. *)
Definition due (r : jsstring * nat) : bool := Nat.eqb (snd r) 0.

Definition dropAll (rs : list (jsstring * nat)) (d : dbstate) : dbstate :=
  fold_left (fun d' r => drop (fst r) d') rs d.

Definition serve (w : world) : world :=
  set_inflight
    (map (fun r => (fst r, Nat.pred (snd r)))
         (filter (fun r => negb (due r)) (inflight w)))
    (set_db (dropAll (filter due (inflight w)) (db w)) w).

(** Once the operation is over, the requests still in flight are served
    too: the state that is left is the one after they are. *)
Definition quiesce (w : world) : world :=
  set_inflight [] (set_db (dropAll (inflight w) (db w)) w).

(** *** The file system *)

Definition exists_path (p : jsstring) (f : filesystem) : bool :=
  match lookup p f with
  | Some _ => true
  | None => false
  end.

(** [fs.mkdirSync(p)] throws when the path exists.  The directory above
    is taken to be there and to be writable: a path that does not exist
    stands for a folder that can be made. *)
Definition mkdirSync (p : jsstring) (f : filesystem) : jserror + filesystem :=
  if exists_path p f
  then inl (ErrObject (lit "Error")
              (lit "EEXIST: file already exists, mkdir '" ++ p ++ lit "'"))
  else inr (f ++ [(p, Dir)]).

(** The directory a path lies in: what comes before its last separator. *)
Fixpoint parentOf (p : jsstring) : option jsstring :=
  match p with
  | [] => None
  | c :: p' =>
      match parentOf p' with
      | Some d => Some (c :: d)
      | None => if (c =? 47)%N then Some [] else None
      end
  end.

(** The ['error'] event of the stream of [fs.createWriteStream(p)], when
    there is one: the path is a directory, the directory it lies in is not
    there, or the fault is one of [write_fault]. *)
Definition writeError (p : jsstring) (f : filesystem) : option jsstring :=
  match lookup p f with
  | Some Dir => Some (lit "EISDIR: illegal operation on a directory, open '" ++ p ++ lit "'")
  | _ =>
      match parentOf p with
      | Some (c :: d) =>
          match lookup (c :: d) f with
          | Some Dir => write_fault E p
          | _ => Some (lit "ENOENT: no such file or directory, open '" ++ p ++ lit "'")
          end
      | _ => write_fault E p
      end
  end.

(** What a write stream that has no error and the bytes piped into it
    leave: the file is created, or truncated and rewritten. *)
Fixpoint writeFile (p : jsstring) (content : bytes E) (f : filesystem) : filesystem :=
  match f with
  | [] => [(p, File content)]
  | (q, n) :: f' =>
      if eqs q p then (q, File content) :: f'
      else (q, n) :: writeFile p content f'
  end.

(** A directory path, without and with its trailing separator. *)
Definition dirName (p : jsstring) : jsstring :=
  if endsWith p (lit "/") then removelast p else p.
Definition dirPrefix (p : jsstring) : jsstring :=
  if endsWith p (lit "/") then p else p ++ lit "/".

(** The entry of the directory [prefix] a path stands for: what comes
    after the prefix, when that is a name (not empty, no separator). *)
Definition entryOf (prefix : jsstring) (e : jsstring * node) : list jsstring :=
  if startsWith (fst e) prefix && (length prefix <? length (fst e))
     && negb (existsb (N.eqb 47) (skipn (length prefix) (fst e)))
  then [skipn (length prefix) (fst e)]
  else [].

(** [fs.readdirSync(p)]: the names in the directory, or a throw.  The
    names come in the order the file system holds them, which stands for
    the order of the platform. *)
Definition readdirSync (p : jsstring) (f : filesystem) : jserror + list jsstring :=
  match lookup (dirName p) f with
  | Some Dir => inr (flat_map (entryOf (dirPrefix p)) f)
  | Some (File _) =>
      inl (ErrObject (lit "Error")
             (lit "ENOTDIR: not a directory, scandir '" ++ p ++ lit "'"))
  | None =>
      inl (ErrObject (lit "Error")
             (lit "ENOENT: no such file or directory, scandir '" ++ p ++ lit "'"))
  end.

(** What the stream of [fs.createReadStream(p)] gives: the content of the
    file, or the message of its ['error'] event. *)
Definition readStream (p : jsstring) (f : filesystem) : jsstring + bytes E :=
  match lookup p f with
  | None => inl (lit "ENOENT: no such file or directory, open '" ++ p ++ lit "'")
  | Some Dir => inl (lit "EISDIR: illegal operation on a directory, read")
  | Some (File content) =>
      match read_fault E p with
      | Some message => inl message
      | None => inr content
      end
  end.

(** *** Promises *)

Definition M (A : Type) : Type := world -> settled A * world.

Definition ret (A : Type) (a : A) : M A := fun w => (Resolved a, w).

(** [const x = await c; k x] *)
Definition bind (A B : Type) (c : M A) (k : A -> M B) : M B :=
  fun w =>
    match c w with
    | (Resolved a, w') => k a w'
    | (Rejected e, w') => (Rejected e, w')
    | (Unsettled, w') => (Unsettled, w')
    end.

Definition logInfo (message : jsstring) : M unit :=
  fun w => (Resolved tt, emit (LogInfo message) w).

Notation "x <- c ;; k" := (bind c (fun x => k))
  (at level 61, c at next level, right associativity).

(** ** The driver *)

Variable this : config.

(** [_systemCollection(collectionName)] *)
Definition _systemCollection (collectionName : jsstring) : bool :=
  systemRegex collectionName.

(** [_systemIndexesCollection(collectionName)] *)
Definition _systemIndexesCollection (collectionName : jsstring) : bool :=
  includes collectionName (lit "system.indexes").

(** [_getDataFormat(fileName)]: the last value of [FORMATS] the file name
    ends with, after a dot; [null] when there is none. *)
Definition _getDataFormat (fileName : jsstring) : option jsstring :=
  fold_left
    (fun dataFormat key =>
       if endsWith fileName (lit "." ++ key) then Some key else dataFormat)
    (FORMATS E) None.

(** [!dataFormat] is false for a non-empty string only. *)
Definition truthy (dataFormat : option jsstring) : option jsstring :=
  match dataFormat with
  | Some (c :: key) => Some (c :: key)
  | _ => None
  end.

(** [_backupCollection(collection, fileName, backupOptions)].  The write
    stream has no ['error'] listener, and [pipe] is not given [reject]:
    when the file cannot be written the event is thrown, the process ends
    and the promise is never settled.  The read stream of the cursor emits
    ['end'] after ['error'] too: a failed transfer rejects, then calls
    [spinner.stop()] a second time ([resolve] has no effect any more). *)
Definition _backupCollection (c : collection) (fileName : jsstring)
    (backupOptions : list (doc E) -> bytes E) : M unit :=
  fun w =>
    let w := emit (SpinnerRun (lit "Backing up " ++ collectionName c ++ lit " ...")) w in
    match writeError fileName (fs w) with
    | Some message => (Unsettled, emit (Uncaught message) w)
    | None =>
        match cursor E (collectionName c) with
        | StreamError delivered message =>
            let w :=
              set_fs (writeFile fileName (backupOptions (firstn delivered (snd c))) (fs w)) w in
            (Rejected (ErrString (lit "Can't back up " ++ collectionName c ++ lit ". "
                                    ++ message)),
             emit SpinnerStop (emit SpinnerStop w))
        | StreamEnd =>
            let w := set_fs (writeFile fileName (backupOptions (snd c)) (fs w)) w in
            (Resolved tt, emit SpinnerStop w)
        end
    end.

(** The [while] loop of [_backupCollections], on the collections that are
    left. *)
Fixpoint backupLoop (backupFolder : jsstring) (collections : list collection) : M unit :=
  match collections with
  | [] => ret tt
  | c :: collections' =>
      if negb (_systemCollection (collectionName c)) then
        let fileName :=
          backupFolder ++ lit "/" ++ collectionName c ++ lit "." ++ format this in
        _ <- _backupCollection c fileName (backupParsersOptions E (format this)) ;;
        backupLoop backupFolder collections'
      else backupLoop backupFolder collections'
  end.

Definition backupFolderAt (now : N) : jsstring :=
  path this ++ numberToString now ++ lit "_" ++ database this.

(** [_backupCollections(db)] *)
Definition _backupCollections : M jsstring :=
  fun w =>
    let collections := db w in
    let backupFolder := backupFolderAt (clock w) in
    match mkdirSync backupFolder (fs w) with
    | inl e => (Rejected e, w)
    | inr f =>
        (_ <- backupLoop backupFolder collections ;; ret backupFolder) (set_fs f w)
    end.

(** The callback of [MongoClient.connect]: [client] is undefined when the
    connection failed, and [client.db] throws inside the [try]. *)
Definition connected (A : Type) (k : M A) : M A :=
  fun w =>
    if online w then k w
    else (Rejected (ErrObject (lit "TypeError") (null_client E)), w).

Definition doBackupPromise : M jsstring :=
  connected
    (fun w =>
       let collections := db w in
       if Nat.eqb (length collections) 0
       then (Rejected (ErrString (lit "Database is empty")), w)
       else _backupCollections w).

(** [doBackup()]: the value the returned promise resolves with; [None]
    when it never settles. *)
Definition doBackup (w : world) : option jsstring * world :=
  match doBackupPromise w with
  | (Resolved backupFolder, w') =>
      (Some (lit "Backup is ready. Path to backup is " ++ backupFolder ++ lit "."), w')
  | (Rejected err, w') =>
      (Some (lit "Error while backing up database. " ++ toString err), w')
  | (Unsettled, w') => (None, w')
  end.

(** [_restoreCollection(collection, filePath, dataFormat)].  A read error
    rejects the promise, and no document is taken to reach the collection.
    The executor is an async function whose own promise is dropped: when
    [readData] does not resolve, or when [bulkWrite] rejects, nothing
    settles the promise and the spinner is left running. *)
Definition _restoreCollection (name : jsstring) (filePath : jsstring)
    (dataFormat : jsstring) : M BulkWriteResult :=
  fun w =>
    let w := emit (SpinnerRun (lit "Restoring " ++ name)) w in
    match readStream filePath (fs w) with
    | inl message =>
        (Rejected (ErrString (lit "Can't restore " ++ name ++ lit ". " ++ message)),
         emit SpinnerStop w)
    | inr content =>
        match restoreParsersOptions E dataFormat content with
        | None => (Unsettled, w)
        | Some documents =>
            match bulkWrite name documents (db w) with
            | (Some results, d) => (Resolved results, emit SpinnerStop (set_db d w))
            | (None, d) => (Unsettled, set_db d w)
            end
        end
    end.

(** [await db.createCollection(collectionName)]: a round trip to the
    server, which serves the drop requests that are due before it. *)
Definition createCollection (name : jsstring) : M jsstring :=
  fun w =>
    let w := serve w in
    (Resolved name, set_db (create name (db w)) w).

(** The [while] loop of [_restoreCollections], on the files that are left. *)
Fixpoint restoreLoop (files : list jsstring) : M unit :=
  match files with
  | [] => ret tt
  | file :: files' =>
      match truthy (_getDataFormat file) with
      | None =>
          _ <- logInfo (lit "Can't read " ++ file ++ lit ". Supported files : "
                          ++ join (lit ",") (FORMATS E)) ;;
          restoreLoop files'
      | Some dataFormat =>
          let collectionName := replace file (lit "." ++ dataFormat) [] in
          c <- createCollection collectionName ;;
          results <- _restoreCollection c (path this ++ file) dataFormat ;;
          _ <- logInfo (lit "Inserted " ++ numberToString (N.of_nat (insertedCount results))
                          ++ lit " records. "
                          ++ numberToString
                               (N.of_nat (writeErrors results + writeConcernErrors results))
                          ++ lit " errors") ;;
          restoreLoop files'
      end
  end.

(** [_restoreCollections(db)] *)
Definition _restoreCollections : M unit :=
  fun w =>
    match readdirSync (path this) (fs w) with
    | inl e => (Rejected e, w)
    | inr files => restoreLoop files w
    end.

(** [_dropCollections(db)]: a drop request for every collection that is
    not a system one.  The method returns nothing, so the [await] of the
    caller waits for none of them. *)
Definition _dropCollections : M unit :=
  fun w =>
    let collections := db w in
    let requests :=
      map (fun c => (collectionName c, drop_delay E (collectionName c)))
          (filter (fun c => negb (_systemCollection (collectionName c))) collections) in
    (Resolved tt, set_inflight (inflight w ++ requests) w).

Definition doRestorePromise : M unit :=
  connected
    (fun w =>
       match readdirSync (path this) (fs w) with
       | inl e => (Rejected e, w)
       | inr files =>
           if Nat.eqb (length files) 0
           then (Rejected (ErrString (lit "Files are not fould in backup folder")), w)
           else (_ <- _dropCollections ;; _restoreCollections) w
       end).

(** [doRestore()]: the value the returned promise resolves with ([None]
    when it never settles), and the world once the requests in flight are
    served. *)
Definition doRestore (w : world) : option jsstring * world :=
  match doRestorePromise w with
  | (Resolved _, w') => (Some (lit "Database restored"), quiesce w')
  | (Rejected err, w') =>
      (Some (lit "Error while restoring database. " ++ toString err), quiesce w')
  | (Unsettled, w') => (None, quiesce w')
  end.

(** The collection a file of the restore directory goes to: [None] for a
    file the loop skips. *)
Definition targetOf (file : jsstring) : option jsstring :=
  match truthy (_getDataFormat file) with
  | Some dataFormat => Some (replace file (lit "." ++ dataFormat) [])
  | None => None
  end.

(** The file the backup loop writes for a collection. *)
Definition fileOf (backupFolder : jsstring) (c : collection) : jsstring :=
  backupFolder ++ lit "/" ++ collectionName c ++ lit "." ++ format this.

Definition eligible (c : collection) : bool :=
  negb (_systemCollection (collectionName c)).

Definition names (d : dbstate) : list jsstring := map collectionName d.

(** The files of a backup loop that comes to its end. *)
Definition written (backupFolder : jsstring) (cs : list collection) (f : filesystem) :
    filesystem :=
  fold_left
    (fun f' c =>
       writeFile (fileOf backupFolder c) (backupParsersOptions E (format this) (snd c)) f')
    (filter eligible cs) f.

(** The world of a backup run once [mkdirSync] has made its folder. *)
Definition folderMade (w : world) : world :=
  set_fs (fs w ++ [(backupFolderAt (clock w), Dir)]) w.

(** Two worlds that differ by collections [kept] in front of the database
    (and by their traces), none of which a request in flight is for. *)
Definition sim (kept : dbstate) (w w' : world) : Prop :=
  db w' = kept ++ db w
  /\ fs w' = fs w
  /\ inflight w' = inflight w
  /\ (forall r, In r (inflight w) -> ~ In (fst r) (names kept)).

(** The driver of a restore from a backup folder: [this.path] is the
    folder with its trailing separator. *)
Definition restoreFrom (backupFolder : jsstring) : config :=
  {| uri := uri this;
     database := database this;
     path := backupFolder ++ lit "/";
     format := format this |}.

(** The name the backup loop gives the file of a collection. *)
Definition fileNameOf (c : collection) : jsstring :=
  collectionName c ++ lit "." ++ format this.

(** A collection that no request in flight is for. *)
Definition safe (name : jsstring) (w : world) : Prop :=
  In name (names (db w)) /\ (forall r, In r (inflight w) -> fst r <> name).

(** The system collections of a database: the drop phase leaves them. *)
Definition systemOnly (d : dbstate) : dbstate :=
  filter (fun c => _systemCollection (collectionName c)) d.

(** What [then] and [catch] make of the promise of [doRestore]. *)
Definition restored (r : settled unit) : option jsstring :=
  match r with
  | Resolved _ => Some (lit "Database restored")
  | Rejected err => Some (lit "Error while restoring database. " ++ toString err)
  | Unsettled => None
  end.

(** [logInfo] notes of the restore loop. *)
Definition cantRead (file : jsstring) : jsstring :=
  lit "Can't read " ++ file ++ lit ". Supported files : " ++ join (lit ",") (FORMATS E).

Definition inserted (results : BulkWriteResult) : jsstring :=
  lit "Inserted " ++ numberToString (N.of_nat (insertedCount results))
    ++ lit " records. "
    ++ numberToString (N.of_nat (writeErrors results + writeConcernErrors results))
    ++ lit " errors".

(** The per-collection document counts of a database. *)
Definition counts (d : dbstate) : list (jsstring * nat) :=
  map (fun c => (collectionName c, length (snd c))) d.

End Driver.

Notation "x <- c ;; k" := (bind c (fun x => k))
  (at level 61, c at next level, right associativity).

(** ** A concrete setting: the database [shop]

    Documents are numbers, a file holds the list of its documents (a
    format that loses nothing) and the formats are [json] and [csv].  What
    the streams and the server do is chosen per scenario. *)

Module Shop.

Definition setting (cur : jsstring -> stream_result)
    (faults : jsstring -> option jsstring) (delays : jsstring -> nat) : Env := {|
  doc := N;
  bytes := list N;
  FORMATS := [lit "json"; lit "csv"];
  backupParsersOptions := fun _ documents => documents;
  restoreParsersOptions := fun _ content => Some content;
  cursor := cur;
  read_fault := faults;
  write_fault := fun _ => None;
  bulk_fault := fun _ _ _ => None;
  drop_delay := delays;
  null_client := lit "Cannot read property 'db' of undefined"
|}.

(** No stream fails, every drop request is served at once. *)
Definition env : Env :=
  setting (fun _ => StreamEnd) (fun _ => None) (fun _ => 0).

(** The cursor over [orders] fails after one document. *)
Definition flaky : Env :=
  setting
    (fun name =>
       if eqs name (lit "orders") then StreamError 1 (lit "cursor killed")
       else StreamEnd)
    (fun _ => None) (fun _ => 0).

(** The file of [orders] cannot be read. *)
Definition unreadable : Env :=
  setting (fun _ => StreamEnd)
    (fun p =>
       if endsWith p (lit "orders.json") then Some (lit "EIO: i/o error, read")
       else None)
    (fun _ => 0).

(** A backup into /backups/. *)
Definition this : config := {|
  uri := lit "mongodb://localhost:27017";
  database := lit "shop";
  path := lit "/backups/";
  format := lit "json"
|}.

(** A restore from the directory /backups/1_shop/. *)
Definition fromDump : config := {|
  uri := lit "mongodb://localhost:27017";
  database := lit "shop";
  path := lit "/backups/1_shop/";
  format := lit "json"
|}.

(** A server that is reached, with the given collections, and a disk with
    the given files in /backups/1_shop. *)
Definition worldOf (E : Env) (collections : dbstate E)
    (files : list (jsstring * bytes E)) : world E :=
  @World E true collections
    ((lit "/backups", Dir E)
       :: (lit "/backups/1_shop", Dir E)
       :: map (fun file => (lit "/backups/1_shop/" ++ fst file, File E (snd file))) files)
    1541116800000 [] [].

Definition users : jsstring * list N := (lit "users", [1; 2; 3]%N).
Definition orders : jsstring * list N := (lit "orders", [4; 5]%N).
Definition carts : jsstring * list N := (lit "carts", [6]%N).

(** [users] has 3 documents and [orders] has 2. *)
Definition source : world env := @worldOf env [users; orders] [].

(** The same server with no collection at all. *)
Definition emptied : world env := @worldOf env [] [].

(** A user collection whose name contains [system.]. *)
Definition withStats : world env :=
  @worldOf env [users; (lit "ecosystem.stats", [7; 8]%N)] [].

(** A user collection whose name contains [system.] after a line feed. *)
Definition auditLog : jsstring := lit "audit" ++ [10%N] ++ lit "system.log".
Definition withAudit : world env := @worldOf env [(auditLog, [9]%N)] [].

Definition busy : world flaky := @worldOf flaky [users; orders; carts] [].

(** A collection whose name has a separator: its file would lie in a
    directory under the folder of the backup, which nobody makes. *)
Definition nested : world env :=
  @worldOf env [users; (lit "logs/2018", [7; 8]%N); orders] [].

(** Restore directories. *)
Definition dump : world env :=
  @worldOf env [(lit "stale", [0]%N); (lit "system.profile", [10]%N)]
    [(lit "users.json", [1; 2; 3]%N); (lit "orders.json", [4; 5]%N)].

Definition damaged : world unreadable :=
  @worldOf unreadable []
    [(lit "users.json", [1; 2; 3]%N); (lit "orders.json", [4; 5]%N);
     (lit "carts.json", [6]%N)].


Definition withNotes : world env :=
  @worldOf env []
    [(lit "users.json", [1; 2; 3]%N); (lit "notes.txt", [0]%N);
     (lit "orders.json", [4; 5]%N)].

Definition withSystemFile : world env :=
  @worldOf env [] [(lit "system.indexes.json", [7; 8]%N)].

Definition withSystemTarget : world env :=
  @worldOf env [] [(lit "mysystem.data.json", [7; 8]%N)].

Definition withOldLogs : world env :=
  @worldOf env [] [(lit "logs.json.old.json", [1; 2]%N)].

(** An empty target database next to the files [w'] has, for a restore from
    the folder a backup of [source] makes. *)
Definition emptyTarget (w' : world env) : world env :=
  @World env true [] (fs w') (clock w') [] [].

(** The server cannot be reached. *)
Definition offline : world env :=
  @World env false [users; orders] [(lit "/backups", Dir env)] 1541116800000 [] [].

(** The folder of the backup is there already. *)
Definition taken : world env :=
  @World env true [users; orders]
    [(lit "/backups", Dir env); (lit "/backups/1541116800000_shop", Dir env)]
    1541116800000 [] [].

(** A database with system collections only. *)
Definition systemDb : world env :=
  @worldOf env [(lit "system.profile", [10]%N); (lit "system.views", [11]%N)] [].

(** A database next to an empty restore directory. *)
Definition noFiles : world env :=
  @worldOf env [(lit "stale", [0]%N); (lit "system.profile", [10]%N)] [].

(** A database next to a restore directory without any backup file. *)
Definition onlyNotes : world env :=
  @worldOf env [(lit "stale", [0]%N); (lit "system.profile", [10]%N)]
    [(lit "notes.txt", [0]%N); (lit "README", [1]%N)].

(** [readData] does not resolve on a file that starts with a zero. *)
Definition undecodable : Env := {|
  doc := N;
  bytes := list N;
  FORMATS := [lit "json"; lit "csv"];
  backupParsersOptions := fun _ documents => documents;
  restoreParsersOptions :=
    fun _ content =>
      match content with
      | 0%N :: _ => None
      | _ => Some content
      end;
  cursor := fun _ => StreamEnd;
  read_fault := fun _ => None;
  write_fault := fun _ => None;
  bulk_fault := fun _ _ _ => None;
  drop_delay := fun _ => 0;
  null_client := lit "Cannot read property 'db' of undefined"
|}.

Definition garbled : world undecodable :=
  @worldOf undecodable []
    [(lit "users.json", [1; 2; 3]%N); (lit "orders.json", [0; 5]%N);
     (lit "carts.json", [6]%N)].

(** The drop requests are served after five collections are created. *)
Definition late : Env :=
  setting (fun _ => StreamEnd) (fun _ => None) (fun _ => 5).

Definition refill : world late :=
  @worldOf late [(lit "users", [9]%N); (lit "system.profile", [10]%N)]
    [(lit "users.json", [1; 2; 3]%N); (lit "orders.json", [4; 5]%N)].

End Shop.

(** ** What a trace shows *)

Definition isRun (e : event) : bool :=
  match e with
  | SpinnerRun _ => true
  | _ => false
  end.

Definition isStop (e : event) : bool :=
  match e with
  | SpinnerStop => true
  | _ => false
  end.

Definition isNote (e : event) : bool :=
  match e with
  | LogInfo _ => true
  | _ => false
  end.

(** The calls of [spinner.run()], of [spinner.stop()] and of [logInfo]. *)
Definition runs (t : list event) : nat := length (filter isRun t).
Definition stops (t : list event) : nat := length (filter isStop t).
Definition notes (t : list event) : nat := length (filter isNote t).

(** A collection that is there has its drop request in flight. *)
Definition pending (E : Env) (name : jsstring) (w : world E) : Prop :=
  In name (names (db w)) -> In name (map fst (inflight w)).

(** * Properties *)

(** ** Strings *)

Lemma eqs_refl (a : jsstring) : eqs a a = true.
Proof.
  induction a as [|c a IH]; simpl; [reflexivity|].
  now rewrite N.eqb_refl, IH.
Qed.

Lemma eqs_eq (a b : jsstring) : eqs a b = true <-> a = b.
Proof.
  split; [|intros ->; apply eqs_refl].
  revert b; induction a as [|c a IH]; intros [|d b]; simpl; try discriminate; auto.
  intros H. apply andb_true_iff in H as [Hc Hr].
  apply N.eqb_eq in Hc. apply IH in Hr. congruence.
Qed.

Lemma eqs_neq (a b : jsstring) : eqs a b = false <-> a <> b.
Proof.
  split.
  - intros H Heq. apply eqs_eq in Heq. congruence.
  - intros H. destruct (eqs a b) eqn:Heq; [|reflexivity].
    apply eqs_eq in Heq. contradiction.
Qed.

Lemma startsWith_iff (s p : jsstring) :
  startsWith s p = true <-> exists t, s = p ++ t.
Proof.
  revert s; induction p as [|c p IH]; intros s; simpl.
  - split; [exists s; reflexivity | reflexivity].
  - destruct s as [|d s].
    + split; [discriminate | intros [t Ht]; discriminate].
    + rewrite andb_true_iff, N.eqb_eq, IH. split.
      * intros [-> [t ->]]. now exists t.
      * intros [t Ht]. injection Ht as -> ->. split; [reflexivity | now exists t].
Qed.

Lemma startsWith_app (p t : jsstring) : startsWith (p ++ t) p = true.
Proof. apply startsWith_iff. now exists t. Qed.

Lemma skipn_length_app (A : Type) (p t : list A) : skipn (length p) (p ++ t) = t.
Proof. induction p; simpl; auto. Qed.

Lemma endsWith_iff (s p : jsstring) :
  endsWith s p = true <-> exists t, s = t ++ p.
Proof.
  unfold endsWith. rewrite andb_true_iff, Nat.leb_le, eqs_eq. split.
  - intros [_ H]. exists (firstn (length s - length p) s).
    transitivity (firstn (length s - length p) s ++ skipn (length s - length p) s).
    + symmetry. apply firstn_skipn.
    + now rewrite H.
  - intros [t ->]. rewrite length_app. split; [lia|].
    replace (length t + length p - length p) with (length t) by lia.
    apply skipn_length_app.
Qed.

Lemma endsWith_app (t p : jsstring) : endsWith (t ++ p) p = true.
Proof. apply endsWith_iff. now exists t. Qed.

Lemma includes_iff (s p : jsstring) :
  includes s p = true <-> exists a b, s = a ++ p ++ b.
Proof.
  induction s as [|c s IH]; simpl.
  - rewrite orb_false_r, startsWith_iff. split.
    + intros [t Ht]. now exists [], t.
    + intros [a [b H]]. destruct a; [now exists b|discriminate].
  - rewrite orb_true_iff, startsWith_iff, IH. split.
    + intros [[t Ht] | [a [b ->]]].
      * now exists [], t.
      * now exists (c :: a), b.
    + intros [[|d a] [b H]].
      * left. now exists b.
      * right. injection H as -> ->. now exists a, b.
Qed.

(** ** The system pattern *)

Lemma dotStar_iff (k : jsstring -> bool) (s : jsstring) :
  dotStar k s = true <->
  exists a b, s = a ++ b /\ noLineTerminator a = true /\ k b = true.
Proof.
  induction s as [|c s IH]; simpl.
  - rewrite orb_false_r. split.
    + intros H. now exists [], [].
    + intros [a [b [H [_ Hk]]]]. symmetry in H.
      apply app_eq_nil in H as [_ ->]. exact Hk.
  - rewrite orb_true_iff, andb_true_iff, IH. split.
    + intros [H | [Hc [a [b [-> [Ha Hk]]]]]].
      * now exists [], (c :: s).
      * exists (c :: a), b. simpl. now rewrite Hc, Ha.
    + intros [[|d a] [b [H [Ha Hk]]]]; simpl in *.
      * left. now subst b.
      * right. injection H as -> ->. apply andb_true_iff in Ha as [Hd Ha].
        split; [exact Hd|]. now exists a, b.
Qed.

Lemma noLineTerminator_app (a b : jsstring) :
  noLineTerminator (a ++ b) = noLineTerminator a && noLineTerminator b.
Proof. apply forallb_app. Qed.

Lemma dotStar_atEnd (s : jsstring) : dotStar atEnd s = noLineTerminator s.
Proof.
  induction s as [|c s IH]; simpl; [reflexivity|].
  now rewrite IH.
Qed.

(** The pattern holds of the names that contain [system.] and have no line
    terminator. *)
Lemma systemRegex_iff (s : jsstring) :
  systemRegex s = true <->
  includes s (lit "system.") = true /\ noLineTerminator s = true.
Proof.
  unfold systemRegex. rewrite dotStar_iff, includes_iff. split.
  - intros [a [b [-> [Ha Hk]]]]. unfold chars in Hk.
    apply andb_true_iff in Hk as [Hp Hr].
    apply startsWith_iff in Hp as [t ->].
    rewrite skipn_length_app, dotStar_atEnd in Hr. split.
    + now exists a, t.
    + rewrite !noLineTerminator_app, Ha, Hr. reflexivity.
  - intros [[a [b ->]] Hn]. exists a, (lit "system." ++ b).
    rewrite !noLineTerminator_app in Hn.
    apply andb_true_iff in Hn as [Ha Hn]. apply andb_true_iff in Hn as [_ Hb].
    repeat split; [exact Ha|]. unfold chars.
    now rewrite startsWith_app, skipn_length_app, dotStar_atEnd, Hb.
Qed.

Example systemRegex_indexes : systemRegex (lit "system.indexes") = true.
Proof. reflexivity. Qed.

Example systemRegex_users : systemRegex (lit "users") = false.
Proof. reflexivity. Qed.

Example systemRegex_ecosystem : systemRegex (lit "ecosystem.stats") = true.
Proof. reflexivity. Qed.

(** ** Backup *)

Section BackupFacts.

Variable E : Env.
Variable this : config.

Lemma backupLoop_system (bf : jsstring) (c : collection E) cs (w : world E) :
  _systemCollection (collectionName c) = true ->
  backupLoop this bf (c :: cs) w = backupLoop this bf cs w.
Proof. intros H. simpl. now rewrite H. Qed.

Lemma backupLoop_eligible (bf : jsstring) (c : collection E) cs (w : world E) :
  _systemCollection (collectionName c) = false ->
  backupLoop this bf (c :: cs) w =
  match _backupCollection c (fileOf this bf c) (backupParsersOptions E (format this)) w with
  | (Resolved _, w') => backupLoop this bf cs w'
  | (Rejected e, w') => (Rejected e, w')
  | (Unsettled, w') => (Unsettled, w')
  end.
Proof. intros H. simpl. rewrite H. reflexivity. Qed.

(** The loop over a list that is cut in two. *)
Lemma backupLoop_app (bf : jsstring) (xs ys : list (collection E)) (w : world E) :
  backupLoop this bf (xs ++ ys) w =
  match backupLoop this bf xs w with
  | (Resolved _, w') => backupLoop this bf ys w'
  | (Rejected e, w') => (Rejected e, w')
  | (Unsettled, w') => (Unsettled, w')
  end.
Proof.
  revert w; induction xs as [|c xs IH]; intros w; [reflexivity|].
  destruct (_systemCollection (collectionName c)) eqn:Hs.
  - rewrite <- app_comm_cons, !backupLoop_system by exact Hs. apply IH.
  - rewrite <- app_comm_cons, !backupLoop_eligible by exact Hs.
    destruct (_backupCollection _ _ _ w) as [[u|e|] w']; auto.
Qed.

End BackupFacts.

(** C8: backing up a database with zero collections gives the failure
    sentence that says the database is empty, and leaves the world as it
    was: no backup directory is made (nothing is, not even a trace). *)
Theorem backup_of_empty_database (E : Env) (this : config) (w : world E) :
  online w = true ->
  db w = [] ->
  doBackup this w =
  (Some (lit "Error while backing up database. Database is empty"), w).
Proof.
  intros Ho Hd. unfold doBackup, doBackupPromise, connected.
  rewrite Ho, Hd. reflexivity.
Qed.

Lemma backup_of_empty_database_witness :
  doBackup Shop.this Shop.emptied =
  (Some (lit "Error while backing up database. Database is empty"), Shop.emptied).
Proof. apply backup_of_empty_database; reflexivity. Defined.

Section BackupRuns.

Variable E : Env.
Variable this : config.

Lemma world_eta (w : world E) :
  World (online w) (db w) (fs w) (clock w) (trace w) (inflight w) = w.
Proof. now destruct w. Qed.

(** The loop works on the list it was given: the database of the world is
    neither read nor written. *)
Lemma backupLoop_set_db (bf : jsstring) (cs : list (collection E)) (d : dbstate E)
    (w : world E) :
  backupLoop this bf cs (set_db d w) =
  (fst (backupLoop this bf cs w), set_db d (snd (backupLoop this bf cs w))).
Proof.
  revert w; induction cs as [|c cs IH]; intros w; [reflexivity|].
  destruct (_systemCollection (collectionName c)) eqn:Hs.
  - rewrite !backupLoop_system by exact Hs. apply IH.
  - rewrite !backupLoop_eligible by exact Hs.
    unfold _backupCollection. cbn [fs emit set_db].
    destruct (writeError _ _); [reflexivity|].
    destruct (cursor E (collectionName c)); simpl.
    + apply (IH (emit SpinnerStop (set_fs _ (emit (SpinnerRun _) w)))).
    + reflexivity.
Qed.

Lemma backupLoop_db (bf : jsstring) (cs : list (collection E)) (w : world E) :
  db (snd (backupLoop this bf cs w)) = db w.
Proof.
  revert w; induction cs as [|c cs IH]; intros w; [reflexivity|].
  destruct (_systemCollection (collectionName c)) eqn:Hs.
  - rewrite backupLoop_system by exact Hs. apply IH.
  - rewrite backupLoop_eligible by exact Hs.
    unfold _backupCollection. destruct (writeError _ _); [reflexivity|].
    destruct (cursor E (collectionName c)); simpl.
    + now rewrite IH.
    + reflexivity.
Qed.

Lemma backupLoop_resolved_cursor (bf : jsstring) (cs : list (collection E)) (w w' : world E) u :
  backupLoop this bf cs w = (Resolved u, w') ->
  forall c, In c cs -> eligible c = true -> cursor E (collectionName c) = StreamEnd.
Proof.
  revert w; induction cs as [|c cs IH]; intros w H x Hx He; [destruct Hx|].
  destruct (_systemCollection (collectionName c)) eqn:Hs.
  - rewrite backupLoop_system in H by exact Hs. destruct Hx as [<-|Hx].
    + unfold eligible in He. rewrite Hs in He. discriminate.
    + now apply (IH _ H).
  - rewrite backupLoop_eligible in H by exact Hs. unfold _backupCollection in H.
    destruct (writeError _ _); [discriminate|].
    destruct (cursor E (collectionName c)) eqn:Hc; [|discriminate].
    destruct Hx as [<-|Hx]; [exact Hc|]. now apply (IH _ H).
Qed.

Lemma backupLoop_resolved_fs (bf : jsstring) (cs : list (collection E)) (w w' : world E) u :
  backupLoop this bf cs w = (Resolved u, w') ->
  fs w' = written this bf cs (fs w).
Proof.
  revert w; induction cs as [|c cs IH]; intros w.
  - intros H. injection H as _ <-. reflexivity.
  - unfold written. simpl filter. unfold eligible at 1.
    destruct (_systemCollection (collectionName c)) eqn:Hs; simpl negb; cbv iota.
    + rewrite backupLoop_system by exact Hs. apply IH.
    + rewrite backupLoop_eligible by exact Hs. unfold _backupCollection.
      destruct (writeError _ _); [discriminate|].
      destruct (cursor E (collectionName c)); simpl; [|discriminate].
      intros H. apply IH in H. exact H.
Qed.

End BackupRuns.

(** ** Files *)

Section Files.

Variable E : Env.

Lemma lookup_app (V : Type) (p : jsstring) (f g : list (jsstring * V)) :
  lookup p (f ++ g) =
  match lookup p f with
  | Some v => Some v
  | None => lookup p g
  end.
Proof.
  induction f as [|[k v] f IH]; simpl; [reflexivity|].
  destruct (eqs k p); [reflexivity|exact IH].
Qed.

Lemma lookup_In (V : Type) (p : jsstring) (f : list (jsstring * V)) :
  lookup p f = None <-> ~ In p (map fst f).
Proof.
  induction f as [|[k v] f IH]; simpl.
  - split; auto.
  - destruct (eqs k p) eqn:Hk.
    + apply eqs_eq in Hk. split; [discriminate|]. intros H. exfalso. apply H. now left.
    + apply eqs_neq in Hk. rewrite IH. split.
      * intros H [Heq|Hin]; auto.
      * intros H Hin. apply H. now right.
Qed.

Lemma lookup_unique (V : Type) (k : jsstring) (v : V) (l : list (jsstring * V)) :
  In (k, v) l -> (forall v', In (k, v') l -> v' = v) -> lookup k l = Some v.
Proof.
  induction l as [|[k' v0] l IH]; intros Hin Hu; [destruct Hin|].
  simpl. destruct (eqs k' k) eqn:Hk.
  - apply eqs_eq in Hk. subst k'. f_equal. apply Hu. now left.
  - destruct Hin as [Heq|Hin].
    + injection Heq as -> ->. now rewrite eqs_refl in Hk.
    + apply IH; [exact Hin|]. intros v' Hv'. apply Hu. now right.
Qed.

Lemma lookup_Some_In (V : Type) (k : jsstring) (v : V) (l : list (jsstring * V)) :
  lookup k l = Some v -> In (k, v) l.
Proof.
  induction l as [|[k' v0] l IH]; simpl; [discriminate|].
  destruct (eqs k' k) eqn:Hk.
  - apply eqs_eq in Hk. intros H. injection H as ->. subst k'. now left.
  - intros H. right. now apply IH.
Qed.

(** On lists whose keys are pairwise distinct, [lookup] does not depend on
    the order. *)
Lemma lookup_Permutation (V : Type) (k : jsstring) (l l' : list (jsstring * V)) :
  NoDup (map fst l) -> Permutation l l' -> lookup k l = lookup k l'.
Proof.
  intros Hnd Hp. destruct (lookup k l') as [v|] eqn:Hl.
  - apply lookup_Some_In in Hl.
    apply lookup_unique; [now apply (Permutation_in _ (Permutation_sym Hp))|].
    intros v' Hv'. apply (Permutation_in _ (Permutation_sym Hp)) in Hl.
    clear - Hnd Hl Hv'. induction l as [|[k0 v0] l IH]; [destruct Hl|].
    simpl in Hnd. inversion Hnd as [|? ? Hk Hnd']; subst.
    destruct Hl as [Hl|Hl], Hv' as [Hv'|Hv'].
    + congruence.
    + injection Hl as -> ->. exfalso. apply Hk. apply in_map_iff. now exists (k, v').
    + injection Hv' as -> ->. exfalso. apply Hk. apply in_map_iff. now exists (k, v).
    + now apply IH.
  - apply lookup_In. apply lookup_In in Hl. intros Hin. apply Hl.
    apply (Permutation_in _ (Permutation_map fst Hp)). exact Hin.
Qed.

Lemma lookup_writeFile (p q : jsstring) (content : bytes E) (f : filesystem E) :
  lookup p (writeFile q content f) =
  if eqs q p then Some (File E content) else lookup p f.
Proof.
  induction f as [|[k n] f IH]; simpl; [reflexivity|].
  destruct (eqs k q) eqn:Hkq; simpl.
  - apply eqs_eq in Hkq. subst k. destruct (eqs q p); reflexivity.
  - rewrite IH. destruct (eqs k p) eqn:Hkp; [|reflexivity].
    apply eqs_eq in Hkp. subst k.
    destruct (eqs q p) eqn:Hqp; [|reflexivity].
    apply eqs_eq in Hqp. subst q. rewrite eqs_refl in Hkq. discriminate.
Qed.

Lemma writeFile_fresh (q : jsstring) (content : bytes E) (f : filesystem E) :
  lookup q f = None ->
  writeFile q content f = f ++ [(q, File E content)].
Proof.
  induction f as [|[k n] f IH]; simpl; [reflexivity|].
  destruct (eqs k q); [discriminate|]. intros H. now rewrite IH.
Qed.

End Files.

Section BackupLayout.

Variable E : Env.
Variable this : config.

Lemma fileOf_inj (bf : jsstring) (c c' : collection E) :
  fileOf this bf c = fileOf this bf c' -> collectionName c = collectionName c'.
Proof.
  unfold fileOf. intros H.
  apply app_inv_head in H. apply app_inv_head in H.
  now apply app_inv_tail in H.
Qed.

Lemma fileOf_not_folder (bf : jsstring) (c : collection E) : fileOf this bf c <> bf.
Proof.
  unfold fileOf. intros H. apply (f_equal (@length N)) in H.
  rewrite !length_app in H. simpl in H. lia.
Qed.

Lemma written_cons (bf : jsstring) (c : collection E) cs (f : filesystem E) :
  written this bf (c :: cs) f =
  if eligible c
  then written this bf cs
         (writeFile (fileOf this bf c) (backupParsersOptions E (format this) (snd c)) f)
  else written this bf cs f.
Proof. unfold written. simpl. destruct (eligible c); reflexivity. Qed.

(** A path that is no file of the loop is left alone. *)
Lemma lookup_written_other (bf p : jsstring) (cs : list (collection E)) (f : filesystem E) :
  (forall c, In c cs -> eligible c = true -> fileOf this bf c <> p) ->
  lookup p (written this bf cs f) = lookup p f.
Proof.
  revert f; induction cs as [|c cs IH]; intros f H; [reflexivity|].
  rewrite written_cons. destruct (eligible c) eqn:He.
  - rewrite IH by (intros x Hx; apply H; now right).
    rewrite lookup_writeFile.
    destruct (eqs (fileOf this bf c) p) eqn:Hp; [|reflexivity].
    apply eqs_eq in Hp. exfalso. apply (H c); auto. now left.
  - apply IH. intros x Hx. apply H. now right.
Qed.

(** The file of an eligible collection holds its documents, encoded. *)
Lemma lookup_written_file (bf : jsstring) (cs : list (collection E)) (f : filesystem E)
    (c : collection E) :
  NoDup (names cs) ->
  In c cs ->
  eligible c = true ->
  lookup (fileOf this bf c) (written this bf cs f) =
  Some (File E (backupParsersOptions E (format this) (snd c))).
Proof.
  revert f; induction cs as [|x cs IH]; intros f Hnd Hin He; [destruct Hin|].
  simpl in Hnd. inversion Hnd as [|? ? Hx Hnd']; subst.
  rewrite written_cons. destruct Hin as [->|Hin].
  - rewrite He. rewrite lookup_written_other.
    + now rewrite lookup_writeFile, eqs_refl.
    + intros y Hy _ Heq. apply fileOf_inj in Heq.
      apply Hx. rewrite <- Heq. now apply in_map.
  - destruct (eligible x); now apply IH.
Qed.

Lemma NoDup_fileOf (bf : jsstring) (cs : list (collection E)) :
  NoDup (names cs) ->
  NoDup (map (fileOf this bf) (filter (@eligible E) cs)).
Proof.
  induction cs as [|c cs IH]; simpl; intros Hnd; [constructor|].
  inversion Hnd as [|? ? Hc Hnd']; subst.
  destruct (eligible c); [|now apply IH].
  simpl. constructor; [|now apply IH].
  intros Hin. apply in_map_iff in Hin as [y [Hy Hin]].
  apply filter_In in Hin as [Hin _]. apply fileOf_inj in Hy.
  apply Hc. rewrite <- Hy. now apply in_map.
Qed.

(** What a resolved [doBackupPromise] says about the run. *)
Lemma doBackupPromise_resolved (w : world E) (folder : jsstring) (w' : world E) :
  doBackupPromise this w = (Resolved folder, w') ->
  folder = backupFolderAt this (clock w)
  /\ online w = true
  /\ db w <> []
  /\ lookup folder (fs w) = None
  /\ (forall c, In c (db w) -> eligible c = true ->
        cursor E (collectionName c) = StreamEnd)
  /\ fs w' = written this folder (db w) (fs w ++ [(folder, Dir E)])
  /\ db w' = db w.
Proof.
  unfold doBackupPromise, connected.
  destruct (online w) eqn:Ho; [|discriminate].
  destruct (Nat.eqb (length (db w)) 0) eqn:Hl; [discriminate|].
  unfold _backupCollections, mkdirSync, exists_path.
  destruct (lookup (backupFolderAt this (clock w)) (fs w)) eqn:Hm; [discriminate|].
  unfold bind.
  destruct (backupLoop this (backupFolderAt this (clock w)) (db w)
              (set_fs (fs w ++ [(backupFolderAt this (clock w), Dir E)]) w))
    as [[[]|e|] w1] eqn:Hloop; try discriminate.
  unfold ret. intros H. injection H as <- <-.
  repeat split; auto.
  - intros Hd. rewrite Hd in Hl. discriminate.
  - intros c Hc He. eapply backupLoop_resolved_cursor; eassumption.
  - apply (backupLoop_resolved_fs _ _ _ _ Hloop).
  - pose proof (backupLoop_db this (backupFolderAt this (clock w)) (db w)
                  (set_fs (fs w ++ [(backupFolderAt this (clock w), Dir E)]) w)) as Hdb.
    rewrite Hloop in Hdb. exact Hdb.
Qed.

(** The sentence of a backup that is ready is the one of a resolved
    promise, and names its folder. *)
Lemma doBackup_ready (w : world E) (folder : jsstring) :
  fst (doBackup this w)
  = Some (lit "Backup is ready. Path to backup is " ++ folder ++ lit ".") ->
  doBackupPromise this w = (Resolved folder, snd (doBackup this w)).
Proof.
  unfold doBackup. destruct (doBackupPromise this w) as [[bf|e|] w']; simpl fst; simpl snd.
  - intros H. injection H as H. apply app_inv_tail in H. now subst.
  - intros H. injection H as H. cbn in H. discriminate H.
  - discriminate.
Qed.

(** C6: a successful backup run (the sentence [doBackup] resolves with is
    the one of a backup that is ready, in [folder]) of a database whose
    collection names are pairwise distinct, with N eligible collections.
    The folder is {path}{epochMillis}_{database}; it did not exist and is
    made; every eligible collection has its file
    {folder}/{collectionName}.{format}, holding its documents encoded; no
    other path of the file system changes (one directory and these files
    are all the run makes); and the files of the N eligible collections
    are N distinct paths. *)
Theorem backup_layout (w : world E) (folder : jsstring) :
  NoDup (names (db w)) ->
  fst (doBackup this w)
  = Some (lit "Backup is ready. Path to backup is " ++ folder ++ lit ".") ->
  let w' := snd (doBackup this w) in
  folder = path this ++ numberToString (clock w) ++ lit "_" ++ database this
  /\ db w <> []
  /\ lookup folder (fs w) = None
  /\ lookup folder (fs w') = Some (Dir E)
  /\ (forall c, In c (db w) -> eligible c = true ->
        lookup (folder ++ lit "/" ++ collectionName c ++ lit "." ++ format this) (fs w')
        = Some (File E (backupParsersOptions E (format this) (snd c))))
  /\ (forall p, p <> folder ->
        (forall c, In c (db w) -> eligible c = true ->
           p <> folder ++ lit "/" ++ collectionName c ++ lit "." ++ format this) ->
        lookup p (fs w') = lookup p (fs w))
  /\ NoDup (map (fun c => folder ++ lit "/" ++ collectionName c ++ lit "." ++ format this)
                (filter (@eligible E) (db w)))
  /\ length (map (fun c => folder ++ lit "/" ++ collectionName c ++ lit "." ++ format this)
                 (filter (@eligible E) (db w)))
     = length (filter (@eligible E) (db w)).
Proof.
  intros Hnd Hready. cbv zeta.
  pose proof (@doBackup_ready w folder Hready) as Hp.
  destruct (@doBackupPromise_resolved w folder _ Hp) as (Hf & Ho & Hd & Hm & Hc & Hfs & Hdb).
  repeat split.
  - exact Hf.
  - exact Hd.
  - exact Hm.
  - rewrite Hfs, lookup_written_other.
    + now rewrite lookup_app, Hm; simpl; rewrite eqs_refl.
    + intros c _ _. apply fileOf_not_folder.
  - intros c Hin He. rewrite Hfs.
    exact (@lookup_written_file folder (db w) (fs w ++ [(folder, Dir E)]) c Hnd Hin He).
  - intros p Hp1 Hp2. rewrite Hfs, lookup_written_other.
    + rewrite lookup_app. destruct (lookup p (fs w)); [reflexivity|].
      simpl. destruct (eqs folder p) eqn:Heq; [|reflexivity].
      apply eqs_eq in Heq. congruence.
    + intros c Hin He Heq. apply (Hp2 c Hin He). now rewrite <- Heq.
  - exact (@NoDup_fileOf folder (db w) Hnd).
  - apply length_map.
Qed.

End BackupLayout.

(** ** Restore *)

Section RestoreFacts.

Variable E : Env.
Variable this : config.

Lemma restoreLoop_skip (file : jsstring) (files : list jsstring) (w : world E) :
  truthy (_getDataFormat E file) = None ->
  restoreLoop this (file :: files) w =
  restoreLoop this files (emit (LogInfo (cantRead E file)) w).
Proof. intros H. simpl. rewrite H. reflexivity. Qed.

Lemma restoreLoop_restore (file : jsstring) (files : list jsstring) (w : world E)
    (dataFormat : jsstring) :
  truthy (_getDataFormat E file) = Some dataFormat ->
  restoreLoop this (file :: files) w =
  match _restoreCollection (replace file (lit "." ++ dataFormat) [])
          (path this ++ file) dataFormat
          (set_db (create (replace file (lit "." ++ dataFormat) []) (db (serve w)))
                  (serve w)) with
  | (Resolved results, w') =>
      restoreLoop this files (emit (LogInfo (inserted results)) w')
  | (Rejected e, w') => (Rejected e, w')
  | (Unsettled, w') => (Unsettled, w')
  end.
Proof. intros H. simpl. rewrite H. reflexivity. Qed.

Lemma restoreLoop_app (xs ys : list jsstring) (w : world E) :
  restoreLoop this (xs ++ ys) w =
  match restoreLoop this xs w with
  | (Resolved _, w') => restoreLoop this ys w'
  | (Rejected e, w') => (Rejected e, w')
  | (Unsettled, w') => (Unsettled, w')
  end.
Proof.
  revert w; induction xs as [|file xs IH]; intros w; [reflexivity|].
  rewrite <- app_comm_cons.
  destruct (truthy (_getDataFormat E file)) as [dataFormat|] eqn:Hf.
  - rewrite !(restoreLoop_restore _ _ _ Hf).
    destruct (_restoreCollection _ _ _ _) as [[results|e|] w']; auto.
  - rewrite !(restoreLoop_skip _ _ _ Hf). apply IH.
Qed.

(** The loop never writes to the file system. *)
Lemma restoreLoop_fs (files : list jsstring) (w : world E) :
  fs (snd (restoreLoop this files w)) = fs w.
Proof.
  revert w; induction files as [|file files IH]; intros w; [reflexivity|].
  destruct (truthy (_getDataFormat E file)) as [dataFormat|] eqn:Hf.
  - rewrite (restoreLoop_restore _ _ _ Hf). unfold _restoreCollection.
    cbn [fs emit set_db serve set_inflight].
    destruct (readStream _ _) as [message|content]; [reflexivity|].
    destruct (restoreParsersOptions E dataFormat content); [|reflexivity].
    destruct (bulkWrite _ _ _) as [[results|] d]; [|reflexivity].
    now rewrite IH.
  - rewrite (restoreLoop_skip _ _ _ Hf). now rewrite IH.
Qed.

(** *** The database under a prefix that is left alone *)

Lemma lookup_prefix (kept d : dbstate E) (name : jsstring) :
  ~ In name (names kept) ->
  lookup name (kept ++ d) = lookup name d.
Proof.
  intros H. rewrite lookup_app.
  now replace (lookup name kept) with (@None (list (doc E)))
    by (symmetry; now apply lookup_In).
Qed.

Lemma create_prefix (kept d : dbstate E) (name : jsstring) :
  ~ In name (names kept) ->
  create name (kept ++ d) = kept ++ create name d.
Proof.
  intros H. unfold create. rewrite lookup_prefix by exact H.
  destruct (lookup name d); [reflexivity|]. now rewrite app_assoc.
Qed.

Lemma insertAll_prefix (kept d : dbstate E) (name : jsstring) (documents : list (doc E)) :
  ~ In name (names kept) ->
  insertAll name documents (kept ++ d) = kept ++ insertAll name documents d.
Proof.
  induction kept as [|c kept IH]; simpl; intros H; [reflexivity|].
  destruct (eqs (collectionName c) name) eqn:Hc.
  - apply eqs_eq in Hc. exfalso. apply H. now left.
  - rewrite IH; [reflexivity|]. intros Hin. apply H. now right.
Qed.

Lemma bulkWrite_prefix (kept d : dbstate E) (name : jsstring) (documents : list (doc E)) :
  ~ In name (names kept) ->
  bulkWrite name documents (kept ++ d)
  = (fst (bulkWrite name documents d), kept ++ snd (bulkWrite name documents d)).
Proof.
  intros H. unfold bulkWrite, stored. rewrite lookup_prefix by exact H.
  destruct documents as [|document documents]; [reflexivity|].
  destruct (bulk_fault E name _ _); cbn [fst snd];
    now rewrite insertAll_prefix by exact H.
Qed.

Lemma drop_prefix (kept d : dbstate E) (name : jsstring) :
  ~ In name (names kept) ->
  drop name (kept ++ d) = kept ++ drop name d.
Proof.
  intros H. unfold drop. rewrite filter_app. f_equal.
  induction kept as [|c kept IH]; simpl; [reflexivity|].
  destruct (eqs (collectionName c) name) eqn:Hc.
  - apply eqs_eq in Hc. exfalso. apply H. now left.
  - simpl. rewrite IH; [reflexivity|]. intros Hin. apply H. now right.
Qed.

Lemma dropAll_prefix (kept d : dbstate E) (rs : list (jsstring * nat)) :
  (forall r, In r rs -> ~ In (fst r) (names kept)) ->
  dropAll rs (kept ++ d) = kept ++ dropAll rs d.
Proof.
  revert d; induction rs as [|r rs IH]; intros d H; [reflexivity|].
  unfold dropAll in *. simpl.
  rewrite drop_prefix by (apply H; now left).
  apply IH. intros x Hx. apply H. now right.
Qed.

Lemma sim_serve (kept : dbstate E) (w w' : world E) :
  sim kept w w' -> sim kept (serve w) (serve w').
Proof.
  intros (Hd & Hf & Hq & Hk). unfold sim, serve. simpl.
  rewrite Hd, Hf, Hq. repeat split; auto.
  - apply dropAll_prefix. intros r Hr. apply filter_In in Hr as [Hr _]. now apply Hk.
  - intros r Hr. apply in_map_iff in Hr as [x [<- Hx]].
    apply filter_In in Hx as [Hx _]. simpl. now apply Hk.
Qed.

Lemma sim_create (kept : dbstate E) (w w' : world E) (name : jsstring) :
  ~ In name (names kept) ->
  sim kept w w' ->
  sim kept (set_db (create name (db w)) w) (set_db (create name (db w')) w').
Proof.
  intros Hn (Hd & Hf & Hq & Hk). unfold sim. simpl.
  rewrite Hd. repeat split; auto. now apply create_prefix.
Qed.

Lemma sim_restoreCollection (kept : dbstate E) (w w' : world E)
    (name filePath dataFormat : jsstring) :
  ~ In name (names kept) ->
  sim kept w w' ->
  fst (_restoreCollection name filePath dataFormat w')
  = fst (_restoreCollection name filePath dataFormat w)
  /\ sim kept (snd (_restoreCollection name filePath dataFormat w))
              (snd (_restoreCollection name filePath dataFormat w')).
Proof.
  intros Hn (Hd & Hf & Hq & Hk). unfold _restoreCollection.
  cbn [fs db emit]. rewrite Hf, Hd.
  destruct (readStream filePath (fs w)) as [message|content].
  - simpl. split; [reflexivity|]. repeat split; auto.
  - destruct (restoreParsersOptions E dataFormat content) as [documents|].
    + rewrite bulkWrite_prefix by exact Hn.
      destruct (bulkWrite name documents (db w)) as [[results|] d]; cbn [fst snd];
        (split; [reflexivity|]); unfold sim; simpl; repeat split; auto.
    + simpl. split; [reflexivity|]. repeat split; auto.
Qed.

(** The loop does the same in two such worlds, as long as no file goes to
    a collection of the prefix. *)
Lemma sim_restoreLoop (kept : dbstate E) (files : list jsstring) (w w' : world E) :
  (forall file name, In file files -> targetOf E file = Some name ->
     ~ In name (names kept)) ->
  sim kept w w' ->
  fst (restoreLoop this files w') = fst (restoreLoop this files w)
  /\ sim kept (snd (restoreLoop this files w)) (snd (restoreLoop this files w')).
Proof.
  revert w w'; induction files as [|file files IH]; intros w w' Ht Hs.
  - simpl. auto.
  - assert (Ht' : forall f name, In f files -> targetOf E f = Some name ->
                    ~ In name (names kept))
      by (intros f name Hf; apply Ht; now right).
    destruct (truthy (_getDataFormat E file)) as [dataFormat|] eqn:Hf.
    + rewrite !(restoreLoop_restore _ _ _ Hf).
      assert (Hn : ~ In (replace file (lit "." ++ dataFormat) []) (names kept)).
      { apply (Ht file); [now left|]. unfold targetOf. now rewrite Hf. }
      destruct (sim_restoreCollection _ (path this ++ file) dataFormat Hn
                  (sim_create _ Hn (sim_serve Hs))) as [H1 H2].
      destruct (_restoreCollection _ _ _ (set_db _ (serve w))) as [r1 w1].
      destruct (_restoreCollection _ _ _ (set_db _ (serve w'))) as [r2 w2].
      simpl in H1, H2. subst r2.
      destruct r1 as [results|e|]; [|auto|auto].
      apply IH; [exact Ht'|]. exact H2.
    + rewrite !(restoreLoop_skip _ _ _ Hf). apply IH; [exact Ht'|]. exact Hs.
Qed.

End RestoreFacts.

Section RestoreRuns.

Variable E : Env.
Variable this : config.

Lemma sim_nil_refl (w : world E) (e : list event) :
  sim [] w (World (online w) (db w) (fs w) (clock w) e (inflight w)).
Proof. unfold sim. simpl. repeat split; auto. Qed.

(** A file the loop skips changes neither the outcome nor the database. *)
Lemma restoreLoop_without (pre post : list jsstring) (file : jsstring) (w : world E) :
  truthy (_getDataFormat E file) = None ->
  fst (restoreLoop this (pre ++ file :: post) w) = fst (restoreLoop this (pre ++ post) w)
  /\ sim [] (snd (restoreLoop this (pre ++ post) w))
            (snd (restoreLoop this (pre ++ file :: post) w)).
Proof.
  intros Hf. rewrite !restoreLoop_app.
  destruct (restoreLoop this pre w) as [[[]|e|] w1]; cbv beta iota.
  - rewrite (restoreLoop_skip _ _ _ _ Hf).
    apply sim_restoreLoop; [intros f name _ _ []|].
    apply (sim_nil_refl w1).
  - split; [reflexivity|]. unfold sim. simpl. repeat split; auto.
  - split; [reflexivity|]. unfold sim. simpl. repeat split; auto.
Qed.

(** [doRestore], once the directory is listed. *)
Lemma doRestore_listed (w : world E) (files : list jsstring) :
  online w = true ->
  readdirSync (path this) (fs w) = inr files ->
  files <> [] ->
  doRestore this w =
  match restoreLoop this files (snd (_dropCollections w)) with
  | (Resolved _, w') => (Some (lit "Database restored"), quiesce w')
  | (Rejected err, w') =>
      (Some (lit "Error while restoring database. " ++ toString err), quiesce w')
  | (Unsettled, w') => (None, quiesce w')
  end.
Proof.
  intros Ho Hr Hne. unfold doRestore, doRestorePromise, connected.
  rewrite Ho, Hr.
  destruct files as [|file files]; [contradiction|].
  simpl Nat.eqb. cbv iota. unfold bind, _dropCollections, _restoreCollections.
  simpl fs. rewrite Hr. reflexivity.
Qed.

(** C7: a restore directory with a file [file] whose extension is in no
    format of the registry.  The loop passes it with a [logInfo] note and
    goes on with the files after it; and [doRestore] resolves with what
    the restore of the other files alone gives, and leaves the database
    that restore leaves: the file makes nothing fail, and the files with
    a recognized extension are restored as they are without it. *)
Theorem unrecognized_file_is_skipped (w : world E) (pre post : list jsstring)
    (file : jsstring) :
  online w = true ->
  readdirSync (path this) (fs w) = inr (pre ++ file :: post) ->
  _getDataFormat E file = None ->
  (forall w0 : world E,
     restoreLoop this (file :: post) w0 =
     restoreLoop this post
       (emit (LogInfo (lit "Can't read " ++ file ++ lit ". Supported files : "
                         ++ join (lit ",") (FORMATS E))) w0))
  /\ fst (doRestore this w) =
     match fst (restoreLoop this (pre ++ post) (snd (_dropCollections w))) with
     | Resolved _ => Some (lit "Database restored")
     | Rejected err => Some (lit "Error while restoring database. " ++ toString err)
     | Unsettled => None
     end
  /\ db (snd (doRestore this w)) =
     db (quiesce (snd (restoreLoop this (pre ++ post) (snd (_dropCollections w))))).
Proof.
  intros Ho Hr Hnone.
  assert (Hf : truthy (_getDataFormat E file) = None) by now rewrite Hnone.
  split; [intros w0; now apply restoreLoop_skip|].
  rewrite (doRestore_listed _ Ho Hr) by (now destruct pre).
  destruct (@restoreLoop_without pre post file (snd (_dropCollections w)) Hf)
    as (H1 & Hd & _ & Hq & _).
  destruct (restoreLoop this (pre ++ file :: post) _) as [r1 w1].
  destruct (restoreLoop this (pre ++ post) _) as [r2 w2].
  simpl in H1, Hd, Hq. subst r2.
  assert (Hdb : db (quiesce w1) = db (quiesce w2))
    by (unfold quiesce; simpl; now rewrite Hd, Hq).
  destruct r1 as [[]|e|]; simpl; auto.
Qed.

(** C4, amended: in a restore run, let [file] be the first file whose read
    stream fails (the files listed before it are dealt with).  Then the
    restore stops there: [doRestore] resolves with the error sentence that
    names the collection of [file], and the files listed after [file] are
    not processed (the loop does what it does on the listing cut after
    [file]). *)
Theorem restore_aborts_at_read_failure (w : world E) (pre post : list jsstring)
    (file dataFormat message : jsstring) :
  online w = true ->
  readdirSync (path this) (fs w) = inr (pre ++ file :: post) ->
  fst (restoreLoop this pre (snd (_dropCollections w))) = Resolved tt ->
  truthy (_getDataFormat E file) = Some dataFormat ->
  readStream (path this ++ file) (fs w) = inl message ->
  fst (doRestore this w) =
    Some (lit "Error while restoring database. Can't restore "
            ++ replace file (lit "." ++ dataFormat) [] ++ lit ". " ++ message)
  /\ restoreLoop this (pre ++ file :: post) (snd (_dropCollections w)) =
     restoreLoop this (pre ++ [file]) (snd (_dropCollections w)).
Proof.
  intros Ho Hr Hpre Hf Hread.
  assert (Hrun : forall tail,
    restoreLoop this (pre ++ file :: tail) (snd (_dropCollections w)) =
    (Rejected (ErrString (lit "Can't restore " ++ replace file (lit "." ++ dataFormat) []
                            ++ lit ". " ++ message)),
     emit SpinnerStop
       (emit (SpinnerRun (lit "Restoring " ++ replace file (lit "." ++ dataFormat) []))
          (set_db (create (replace file (lit "." ++ dataFormat) [])
                     (db (serve (snd (restoreLoop this pre (snd (_dropCollections w)))))))
             (serve (snd (restoreLoop this pre (snd (_dropCollections w))))))))).
  { intros tail. rewrite restoreLoop_app.
    pose proof (restoreLoop_fs this pre (snd (_dropCollections w))) as Hfs.
    destruct (restoreLoop this pre (snd (_dropCollections w))) as [r w1].
    simpl in Hpre, Hfs. subst r.
    rewrite (restoreLoop_restore _ _ _ _ Hf). unfold _restoreCollection.
    simpl fs. rewrite Hfs. simpl fs. rewrite Hread. reflexivity. }
  split.
  - rewrite (doRestore_listed _ Ho Hr) by (now destruct pre).
    rewrite Hrun. reflexivity.
  - now rewrite !Hrun.
Qed.

End RestoreRuns.

(** ** System collections *)

Section SystemCollections.

Variable E : Env.
Variable this : config.

(** No run of the backup loop, ended or aborted, writes to a path that is
    no file of an eligible collection. *)
Lemma backupLoop_lookup_other (bf p : jsstring) (cs : list (collection E)) (w : world E) :
  (forall c, In c cs -> eligible c = true -> fileOf this bf c <> p) ->
  lookup p (fs (snd (backupLoop this bf cs w))) = lookup p (fs w).
Proof.
  revert w; induction cs as [|c cs IH]; intros w H; [reflexivity|].
  assert (H' : forall x, In x cs -> eligible x = true -> fileOf this bf x <> p)
    by (intros x Hx; apply H; now right).
  destruct (_systemCollection (collectionName c)) eqn:Hs.
  - rewrite backupLoop_system by exact Hs. now apply IH.
  - rewrite backupLoop_eligible by exact Hs.
    assert (Hp : eqs (fileOf this bf c) p = false).
    { apply eqs_neq. apply H; [now left|]. unfold eligible. now rewrite Hs. }
    unfold _backupCollection. destruct (writeError _ _); [reflexivity|].
    destruct (cursor E (collectionName c)); simpl.
    + rewrite IH by exact H'. simpl. now rewrite lookup_writeFile, Hp.
    + now rewrite lookup_writeFile, Hp.
Qed.

(** Whatever the run does, the file a system collection would have is
    not written. *)
Lemma doBackup_omits_system (w : world E) (c : collection E) :
  _systemCollection (collectionName c) = true ->
  lookup (fileOf this (backupFolderAt this (clock w)) c) (fs (snd (doBackup this w)))
  = lookup (fileOf this (backupFolderAt this (clock w)) c) (fs w).
Proof.
  intros Hs. unfold doBackup, doBackupPromise, connected.
  destruct (online w); [|reflexivity].
  destruct (Nat.eqb _ _); [reflexivity|].
  unfold _backupCollections, mkdirSync.
  destruct (exists_path _ _); [reflexivity|]. unfold bind.
  pose proof (@backupLoop_lookup_other (backupFolderAt this (clock w))
                (fileOf this (backupFolderAt this (clock w)) c) (db w)
                (set_fs (fs w ++ [(backupFolderAt this (clock w), Dir E)]) w)) as H.
  assert (Hlook : lookup (fileOf this (backupFolderAt this (clock w)) c)
                    (fs w ++ [(backupFolderAt this (clock w), Dir E)])
                  = lookup (fileOf this (backupFolderAt this (clock w)) c) (fs w)).
  { rewrite lookup_app. destruct (lookup _ (fs w)); [reflexivity|]. simpl.
    destruct (eqs _ _) eqn:Heq; [|reflexivity].
    apply eqs_eq in Heq. symmetry in Heq. now apply fileOf_not_folder in Heq. }
  cbn [fs set_fs] in H. rewrite <- Hlook, <- H.
  - destruct (backupLoop _ _ _ _) as [[[]|e|] w1]; reflexivity.
  - intros x _ Hx Heq. apply fileOf_inj in Heq. unfold eligible in Hx.
    rewrite Heq, Hs in Hx. discriminate.
Qed.

(** The names a database keeps. *)
Lemma names_drop (d : dbstate E) (name other : jsstring) :
  name <> other -> In name (names d) -> In name (names (drop other d)).
Proof.
  intros Hne Hin. unfold names in *. apply in_map_iff in Hin as [c [Hc Hin]].
  apply in_map_iff. exists c. split; [exact Hc|].
  apply filter_In. split; [exact Hin|].
  apply negb_true_iff, eqs_neq. congruence.
Qed.

Lemma names_dropAll (rs : list (jsstring * nat)) (d : dbstate E) (name : jsstring) :
  (forall r, In r rs -> fst r <> name) ->
  In name (names d) -> In name (names (dropAll rs d)).
Proof.
  revert d; induction rs as [|r rs IH]; intros d H Hin; [exact Hin|].
  unfold dropAll in *. simpl. apply IH.
  - intros x Hx. apply H. now right.
  - apply names_drop; [|exact Hin]. intros Heq. apply (H r); [now left|auto].
Qed.

Lemma names_create (d : dbstate E) (name other : jsstring) :
  In name (names d) -> In name (names (create other d)).
Proof.
  intros Hin. unfold create. destruct (lookup other d); [exact Hin|].
  unfold names. rewrite map_app. apply in_or_app. now left.
Qed.

Lemma names_insertAll (d : dbstate E) (name other : jsstring) (documents : list (doc E)) :
  In name (names d) -> In name (names (insertAll other documents d)).
Proof.
  induction d as [|c d IH]; simpl; [intros []|].
  intros [Hc|Hin]; destruct (eqs (collectionName c) other); simpl; auto.
Qed.

Lemma names_bulkWrite (d : dbstate E) (name other : jsstring) (documents : list (doc E)) :
  In name (names d) -> In name (names (snd (bulkWrite other documents d))).
Proof.
  intros H. unfold bulkWrite. destruct documents as [|document documents]; [exact H|].
  destruct (bulk_fault E other _ _); cbn [snd]; now apply names_insertAll.
Qed.

Lemma safe_serve (name : jsstring) (w : world E) : safe name w -> safe name (serve w).
Proof.
  intros [Hin Hq]. unfold safe, serve. simpl. split.
  - apply names_dropAll; [|exact Hin].
    intros r Hr. apply filter_In in Hr as [Hr _]. now apply Hq.
  - intros r Hr. apply in_map_iff in Hr as [x [<- Hx]].
    apply filter_In in Hx as [Hx _]. simpl. now apply Hq.
Qed.

Lemma safe_restoreLoop (name : jsstring) (files : list jsstring) (w : world E) :
  safe name w -> safe name (snd (restoreLoop this files w)).
Proof.
  revert w; induction files as [|file files IH]; intros w Hs; [exact Hs|].
  destruct (truthy (_getDataFormat E file)) as [dataFormat|] eqn:Hf.
  - rewrite (restoreLoop_restore _ _ _ _ Hf).
    destruct (safe_serve Hs) as [Hin Hq].
    unfold _restoreCollection. cbn [fs db emit set_db].
    destruct (readStream _ _) as [message|content]; simpl.
    + split; [now apply names_create|exact Hq].
    + destruct (restoreParsersOptions E dataFormat content) as [documents|].
      * pose proof (@names_bulkWrite (create (replace file (lit "." ++ dataFormat) [])
                                             (db (serve w)))
                      name (replace file (lit "." ++ dataFormat) []) documents
                      (names_create _ _ _ Hin)) as Hb.
        destruct (bulkWrite _ documents _) as [[results|] d]; cbn [snd] in Hb.
        -- apply IH. split; [exact Hb|exact Hq].
        -- split; [exact Hb|exact Hq].
      * split; [now apply names_create|exact Hq].
  - rewrite (restoreLoop_skip _ _ _ _ Hf). apply IH. exact Hs.
Qed.

(** The drop phase of a restore makes no request for a system collection,
    and a system collection of the database is still there after
    [doRestore], whenever the requests are served. *)
Lemma doRestore_keeps_system (w : world E) (name : jsstring) :
  _systemCollection name = true ->
  inflight w = [] ->
  In name (names (db w)) ->
  ~ In name (map fst (inflight (snd (_dropCollections w))))
  /\ In name (names (db (snd (doRestore this w)))).
Proof.
  intros Hs Hq Hin.
  assert (Hreq : forall r, In r (inflight (snd (_dropCollections w))) -> fst r <> name).
  { intros r Hr Heq. simpl in Hr. rewrite Hq in Hr. simpl in Hr.
    apply in_map_iff in Hr as [c [<- Hc]]. apply filter_In in Hc as [_ Hc].
    simpl in Heq. rewrite Heq, Hs in Hc. discriminate. }
  split.
  - intros H. apply in_map_iff in H as [r [Hr1 Hr2]]. now apply (Hreq r).
  - assert (Hw : safe name w) by (split; [exact Hin|rewrite Hq; intros r []]).
    assert (Hp : safe name (snd (doRestorePromise this w))).
    { unfold doRestorePromise, connected. destruct (online w); [|exact Hw].
      destruct (readdirSync (path this) (fs w)) as [e|files] eqn:Hr; [exact Hw|].
      destruct (Nat.eqb _ _); [exact Hw|].
      unfold bind, _restoreCollections. cbn [_dropCollections].
      change (fs (set_inflight _ w)) with (fs w). rewrite Hr.
      apply safe_restoreLoop. split; [exact Hin|exact Hreq]. }
    unfold doRestore.
    destruct (doRestorePromise this w) as [[[]|e|] w1]; simpl in *;
      destruct Hp as [H1 H2]; now apply names_dropAll.
Qed.

End SystemCollections.

(** ** Restoring twice *)

Section Idempotence.

Variable E : Env.
Variable this : config.

Lemma dropAll_cons (rs : list (jsstring * nat)) (c : collection E) (d : dbstate E) :
  dropAll rs (c :: d) =
  (if existsb (fun r => eqs (collectionName c) (fst r)) rs then [] else [c])
    ++ dropAll rs d.
Proof.
  revert c d; induction rs as [|r rs IH]; intros c d; [reflexivity|].
  unfold dropAll in *. simpl.
  destruct (eqs (collectionName c) (fst r)); simpl; [reflexivity|apply IH].
Qed.

Lemma dropAll_nil (rs : list (jsstring * nat)) : dropAll rs (@nil (collection E)) = [].
Proof. induction rs as [|r rs IH]; [reflexivity|exact IH]. Qed.

(** Once served, the requests of the drop phase leave the system
    collections and nothing else. *)
Lemma dropAll_requests (delay : jsstring -> nat) (d : dbstate E) :
  dropAll (map (fun c => (collectionName c, delay (collectionName c)))
               (filter (fun c => negb (_systemCollection (collectionName c))) d)) d
  = systemOnly d.
Proof.
  set (rs := map _ _).
  assert (H : forall c, In c d ->
            existsb (fun r => eqs (collectionName c) (fst r)) rs
            = negb (_systemCollection (collectionName c))).
  { intros c Hc. destruct (_systemCollection (collectionName c)) eqn:Hs; simpl.
    - destruct (existsb _ rs) eqn:Hex; [|reflexivity].
      apply existsb_exists in Hex as [r [Hr Heq]].
      apply in_map_iff in Hr as [x [<- Hx]]. apply filter_In in Hx as [_ Hx].
      simpl in Heq. apply eqs_eq in Heq. rewrite <- Heq, Hs in Hx. discriminate.
    - apply existsb_exists. exists (collectionName c, delay (collectionName c)).
      split; [|apply eqs_refl].
      apply in_map_iff. exists c. split; [reflexivity|].
      apply filter_In. split; [exact Hc|]. now rewrite Hs. }
  clearbody rs. induction d as [|c d IH]; [apply dropAll_nil|].
  rewrite dropAll_cons, H by now left. unfold systemOnly in *. simpl.
  destruct (_systemCollection (collectionName c)); simpl;
    (rewrite IH; [reflexivity|intros x Hx; apply H; now right]).
Qed.

Lemma all_due (q : list (jsstring * nat)) :
  (forall r, In r q -> snd r = 0) ->
  filter due q = q /\ filter (fun r => negb (due r)) q = [].
Proof.
  induction q as [|r q IH]; intros H; [split; reflexivity|].
  destruct IH as [IH1 IH2]; [intros x Hx; apply H; now right|].
  assert (Hr : due r = true) by (unfold due; now rewrite (H r) by now left).
  simpl. now rewrite Hr, IH1, IH2.
Qed.

Lemma serve_all_due (w : world E) :
  (forall r, In r (inflight w) -> snd r = 0) ->
  serve w = quiesce w.
Proof.
  intros H. unfold serve, quiesce.
  destruct (all_due _ H) as [Hd Hn]. now rewrite Hd, Hn.
Qed.

(** When every request in flight is due, it makes no difference to serve
    them before the loop. *)
Lemma restoreLoop_all_due (files : list jsstring) (w : world E) :
  (forall r, In r (inflight w) -> snd r = 0) ->
  fst (restoreLoop this files w) = fst (restoreLoop this files (quiesce w))
  /\ quiesce (snd (restoreLoop this files w))
     = quiesce (snd (restoreLoop this files (quiesce w))).
Proof.
  revert w; induction files as [|file files IH]; intros w H; [split; reflexivity|].
  destruct (truthy (_getDataFormat E file)) as [dataFormat|] eqn:Hf.
  - rewrite !(restoreLoop_restore _ _ _ _ Hf).
    rewrite (serve_all_due _ H).
    change (serve (quiesce w)) with (quiesce w). split; reflexivity.
  - rewrite !(restoreLoop_skip _ _ _ _ Hf).
    change (emit (LogInfo (cantRead E file)) (quiesce w))
      with (quiesce (emit (LogInfo (cantRead E file)) w)).
    apply IH. exact H.
Qed.

(** The names of the database after the loop: those it had, and targets
    of the files. *)
Lemma names_dropAll_incl (rs : list (jsstring * nat)) (d : dbstate E) (name : jsstring) :
  In name (names (dropAll rs d)) -> In name (names d).
Proof.
  revert d; induction rs as [|r rs IH]; intros d H; [exact H|].
  unfold dropAll in *. simpl in H. apply IH in H.
  unfold names, drop in *. apply in_map_iff in H as [c [Hc Hin]].
  apply filter_In in Hin as [Hin _]. apply in_map_iff. now exists c.
Qed.

Lemma names_create_inv (d : dbstate E) (name other : jsstring) :
  In name (names (create other d)) -> In name (names d) \/ name = other.
Proof.
  unfold create. destruct (lookup other d); [auto|].
  unfold names. rewrite map_app. intros H.
  apply in_app_or in H as [H|[H|[]]]; [now left|right; now symmetry].
Qed.

Lemma names_insertAll_inv (d : dbstate E) (name other : jsstring) (documents : list (doc E)) :
  In name (names (insertAll other documents d)) -> In name (names d) \/ name = other.
Proof.
  induction d as [|c d IH]; simpl.
  - intros [H|[]]; auto.
  - destruct (eqs (collectionName c) other); simpl; [auto|].
    intros [H|H]; [auto|]. apply IH in H as [H|H]; auto.
Qed.

Lemma names_bulkWrite_inv (d : dbstate E) (name other : jsstring)
    (documents : list (doc E)) :
  In name (names (snd (bulkWrite other documents d))) -> In name (names d) \/ name = other.
Proof.
  unfold bulkWrite. destruct documents as [|document documents]; [now left|].
  destruct (bulk_fault E other _ _); cbn [snd]; apply names_insertAll_inv.
Qed.

Lemma names_restoreLoop (files : list jsstring) (w : world E) (name : jsstring) :
  In name (names (db (snd (restoreLoop this files w)))) ->
  In name (names (db w))
  \/ exists file, In file files /\ targetOf E file = Some name.
Proof.
  revert w; induction files as [|file files IH]; intros w H; [now left|].
  assert (Hstep : forall dataFormat, truthy (_getDataFormat E file) = Some dataFormat ->
            In name (names (create (replace file (lit "." ++ dataFormat) [])
                              (db (serve w)))) ->
            In name (names (db w))
            \/ exists f, In f (file :: files) /\ targetOf E f = Some name).
  { intros dataFormat Hf Hin. apply names_create_inv in Hin as [Hin| ->].
    - left. simpl in Hin. now apply names_dropAll_incl in Hin.
    - right. exists file. split; [now left|]. unfold targetOf. now rewrite Hf. }
  destruct (truthy (_getDataFormat E file)) as [dataFormat|] eqn:Hf.
  - rewrite (restoreLoop_restore _ _ _ _ Hf) in H. unfold _restoreCollection in H.
    cbn [fs db emit set_db] in H.
    assert (Hbulk : forall documents,
              In name (names (snd (bulkWrite (replace file (lit "." ++ dataFormat) [])
                                     documents
                                     (create (replace file (lit "." ++ dataFormat) [])
                                        (db (serve w)))))) ->
              In name (names (db w))
              \/ exists f, In f (file :: files) /\ targetOf E f = Some name).
    { intros documents Hb. apply names_bulkWrite_inv in Hb as [Hb| ->].
      - now apply (Hstep dataFormat).
      - right. exists file. split; [now left|]. unfold targetOf. now rewrite Hf. }
    destruct (readStream _ _) as [message|content]; simpl in H.
    + now apply (Hstep dataFormat).
    + destruct (restoreParsersOptions E dataFormat content) as [documents|].
      * specialize (Hbulk documents).
        destruct (bulkWrite _ documents _) as [[results|] d]; cbn [snd] in Hbulk.
        -- apply IH in H as [H|[f [Hf1 Hf2]]].
           ++ simpl in H. now apply Hbulk.
           ++ right. exists f. split; [now right|exact Hf2].
        -- simpl in H. now apply Hbulk.
      * now apply (Hstep dataFormat).
  - rewrite (restoreLoop_skip _ _ _ _ Hf) in H. apply IH in H as [H|[f [Hf1 Hf2]]].
    + now left.
    + right. exists f. split; [now right|exact Hf2].
Qed.

End Idempotence.

Section RestoreTwice.

Variable E : Env.
Variable this : config.

Lemma restoreLoop_inflight_nil (files : list jsstring) (w : world E) :
  inflight w = [] -> inflight (snd (restoreLoop this files w)) = [].
Proof.
  revert w; induction files as [|file files IH]; intros w H; [exact H|].
  destruct (truthy (_getDataFormat E file)) as [dataFormat|] eqn:Hf.
  - rewrite (restoreLoop_restore _ _ _ _ Hf). unfold _restoreCollection, serve.
    rewrite H. simpl.
    destruct (readStream _ _) as [message|content]; [reflexivity|].
    destruct (restoreParsersOptions E dataFormat content); [|reflexivity].
    destruct (bulkWrite _ _ _) as [[results|] d]; [|reflexivity].
    now apply IH.
  - rewrite (restoreLoop_skip _ _ _ _ Hf). now apply IH.
Qed.

Lemma restoreLoop_online (files : list jsstring) (w : world E) :
  online (snd (restoreLoop this files w)) = online w.
Proof.
  revert w; induction files as [|file files IH]; intros w; [reflexivity|].
  destruct (truthy (_getDataFormat E file)) as [dataFormat|] eqn:Hf.
  - rewrite (restoreLoop_restore _ _ _ _ Hf). unfold _restoreCollection. simpl.
    destruct (readStream _ _) as [message|content]; [reflexivity|].
    destruct (restoreParsersOptions E dataFormat content); [|reflexivity].
    destruct (bulkWrite _ _ _) as [[results|] d]; [|reflexivity].
    now rewrite IH.
  - rewrite (restoreLoop_skip _ _ _ _ Hf). now rewrite IH.
Qed.

Lemma names_systemOnly (d : dbstate E) (name : jsstring) :
  In name (names (systemOnly d)) -> _systemCollection name = true.
Proof.
  unfold names, systemOnly. intros H. apply in_map_iff in H as [c [<- Hc]].
  now apply filter_In in Hc as [_ Hc].
Qed.

Lemma systemOnly_idem (d : dbstate E) : systemOnly (systemOnly d) = systemOnly d.
Proof.
  unfold systemOnly. induction d as [|c d IH]; [reflexivity|]. simpl.
  destruct (_systemCollection (collectionName c)) eqn:Hs; [|exact IH].
  simpl. now rewrite Hs, IH.
Qed.

Lemma systemOnly_app (d d' : dbstate E) :
  systemOnly (d ++ d') = systemOnly d ++ systemOnly d'.
Proof. apply filter_app. Qed.

Lemma systemOnly_none (d : dbstate E) :
  (forall name, In name (names d) -> _systemCollection name = false) ->
  systemOnly d = [].
Proof.
  unfold systemOnly. induction d as [|c d IH]; intros H; [reflexivity|]. simpl.
  rewrite (H (collectionName c)) by now left.
  apply IH. intros name Hn. apply H. now right.
Qed.

Lemma doRestore_listed_pair (w : world E) (files : list jsstring) :
  online w = true ->
  readdirSync (path this) (fs w) = inr files ->
  files <> [] ->
  doRestore this w =
  (restored (fst (restoreLoop this files (snd (_dropCollections w)))),
   quiesce (snd (restoreLoop this files (snd (_dropCollections w))))).
Proof.
  intros Ho Hr Hne. rewrite (doRestore_listed _ _ Ho Hr Hne).
  destruct (restoreLoop this files _) as [[[]|e|] w']; reflexivity.
Qed.

(** When the drop requests are served at once and no file goes to a system
    collection, a restore leaves the system collections the database had,
    followed by what the loop builds from an empty database. *)
Lemma doRestore_from_scratch (w : world E) (files : list jsstring) :
  online w = true ->
  inflight w = [] ->
  (forall name, drop_delay E name = 0) ->
  readdirSync (path this) (fs w) = inr files ->
  files <> [] ->
  (forall file name, In file files -> targetOf E file = Some name ->
     _systemCollection name = false) ->
  fst (doRestore this w)
  = restored (fst (restoreLoop this files (World true [] (fs w) 0 [] [])))
  /\ db (snd (doRestore this w))
     = systemOnly (db w) ++ db (snd (restoreLoop this files (World true [] (fs w) 0 [] [])))
  /\ fs (snd (doRestore this w)) = fs w
  /\ inflight (snd (doRestore this w)) = []
  /\ online (snd (doRestore this w)) = true.
Proof.
  intros Ho Hq Hdelay Hr Hne Ht.
  rewrite (doRestore_listed_pair _ Ho Hr Hne).
  set (wd := snd (_dropCollections w)).
  assert (Hdue : forall r, In r (inflight wd) -> snd r = 0).
  { intros r Hin. unfold wd in Hin. simpl in Hin. rewrite Hq in Hin. simpl in Hin.
    apply in_map_iff in Hin as [c [<- _]]. apply Hdelay. }
  destruct (restoreLoop_all_due this files wd Hdue) as [H1 H2].
  assert (Hwd : quiesce wd =
    World (online w) (systemOnly (db w)) (fs w) (clock w) (trace w) []).
  { unfold wd, quiesce. simpl. rewrite Hq. simpl. now rewrite dropAll_requests. }
  rewrite Hwd in H1, H2.
  assert (Hsim : sim (systemOnly (db w)) (World true [] (fs w) 0 [] [])
                   (World (online w) (systemOnly (db w)) (fs w) (clock w) (trace w) [])).
  { unfold sim. simpl. rewrite app_nil_r. repeat split; auto. }
  destruct (sim_restoreLoop this files
              (fun file name Hin Htarget Hk =>
                 eq_true_false_abs _ (names_systemOnly _ _ Hk) (Ht file name Hin Htarget))
              Hsim) as (H3 & Hd & Hf & Hi & _).
  pose proof (restoreLoop_inflight_nil files (World true [] (fs w) 0 [] []) eq_refl) as Hn.
  pose proof (restoreLoop_fs this files (World true [] (fs w) 0 [] [])) as Hfs.
  pose proof (restoreLoop_online files
                (World (online w) (systemOnly (db w)) (fs w) (clock w) (trace w) [])) as Hon.
  simpl fst. simpl snd. rewrite H1, H2, H3.
  unfold quiesce. simpl. rewrite Hi, Hn, Hd, Hf, Hfs, Hon. simpl.
  repeat split; auto.
Qed.

(** C2, amended: when the drop requests of [doRestore] are served before
    the first collection is created (the driver does not wait for them)
    and no file of the directory goes to a collection with a system name
    (such a collection is never dropped), a second [doRestore] against the
    same directory resolves with the same sentence as the first and
    leaves the same database, hence the same per-collection document
    counts. *)
Theorem restore_twice (w : world E) :
  inflight w = [] ->
  (forall name, drop_delay E name = 0) ->
  (forall files file name,
     readdirSync (path this) (fs w) = inr files ->
     In file files -> targetOf E file = Some name -> _systemCollection name = false) ->
  fst (doRestore this (snd (doRestore this w))) = fst (doRestore this w)
  /\ db (snd (doRestore this (snd (doRestore this w)))) = db (snd (doRestore this w))
  /\ counts (db (snd (doRestore this (snd (doRestore this w)))))
     = counts (db (snd (doRestore this w))).
Proof.
  intros Hq Hdelay Ht.
  assert (Hgoal : fst (doRestore this (snd (doRestore this w))) = fst (doRestore this w)
                  /\ db (snd (doRestore this (snd (doRestore this w))))
                     = db (snd (doRestore this w))).
  2: { destruct Hgoal as [H1 H2]. repeat split; auto. now rewrite H2. }
  destruct (online w) eqn:Ho.
  2: { unfold doRestore, doRestorePromise, connected. rewrite Ho. simpl.
       rewrite Ho. simpl. rewrite Hq. split; reflexivity. }
  destruct (readdirSync (path this) (fs w)) as [e|files] eqn:Hr.
  { unfold doRestore, doRestorePromise, connected. rewrite Ho, Hr. simpl.
    rewrite Ho, Hr. simpl. rewrite Hq. split; reflexivity. }
  destruct files as [|file files].
  { unfold doRestore, doRestorePromise, connected. rewrite Ho, Hr. simpl.
    rewrite Ho, Hr. simpl. rewrite Hq. split; reflexivity. }
  assert (Hne : file :: files <> []) by discriminate.
  assert (Ht' : forall f name, In f (file :: files) -> targetOf E f = Some name ->
                  _systemCollection name = false)
    by (intros f name; apply (Ht _ f name eq_refl)).
  destruct (doRestore_from_scratch w Ho Hq Hdelay Hr Hne Ht')
    as (H1 & H2 & H3 & H4 & H5).
  assert (Hr' : readdirSync (path this) (fs (snd (doRestore this w)))
                = inr (file :: files)) by now rewrite H3.
  destruct (doRestore_from_scratch (snd (doRestore this w)) H5 H4 Hdelay Hr' Hne Ht')
    as (K1 & K2 & _).
  rewrite H3 in K1, K2. split.
  - now rewrite K1, H1.
  - rewrite K2, H2, systemOnly_app, systemOnly_idem.
    rewrite (@systemOnly_none (db (snd (restoreLoop this (file :: files)
                                          (World true [] (fs w) 0 [] []))))).
    + now rewrite app_nil_r.
    + intros name Hn. apply names_restoreLoop in Hn as [[]|[f [Hf1 Hf2]]].
      now apply (Ht' f).
Qed.

End RestoreTwice.

(** ** File names and formats *)

Section FileNames.

Variable E : Env.

(** A string is cut at its last dot in one way only. *)
Lemma last_dot_unique (a b x y : jsstring) :
  a ++ 46%N :: x = b ++ 46%N :: y ->
  ~ In 46%N x -> ~ In 46%N y ->
  a = b /\ x = y.
Proof.
  revert b; induction a as [|c a IH]; intros [|d b] H Hx Hy; simpl in H.
  - injection H as H. auto.
  - injection H as Hc H. exfalso. apply Hx. rewrite H. apply in_or_app. right. now left.
  - injection H as Hc H. exfalso. apply Hy. rewrite <- H. apply in_or_app. right. now left.
  - injection H as Hc H. destruct (IH b H Hx Hy) as [-> ->]. subst. auto.
Qed.

Lemma fold_format (file dataFormat : jsstring) (keys : list jsstring)
    (acc : option jsstring) :
  (forall key, In key keys -> endsWith file (lit "." ++ key) = true -> key = dataFormat) ->
  endsWith file (lit "." ++ dataFormat) = true ->
  acc = None \/ acc = Some dataFormat ->
  fold_left
    (fun found key => if endsWith file (lit "." ++ key) then Some key else found)
    keys acc
  = if existsb (eqs dataFormat) keys then Some dataFormat else acc.
Proof.
  revert acc; induction keys as [|key keys IH]; intros acc Hu He Hacc; [reflexivity|].
  cbn [fold_left existsb]. rewrite IH.
  - destruct (eqs dataFormat key) eqn:Hk.
    + apply eqs_eq in Hk. subst key. rewrite He. cbn [orb].
      now destruct (existsb _ keys).
    + cbn [orb]. destruct (existsb _ keys); [reflexivity|].
      destruct (endsWith file (lit "." ++ key)) eqn:Hend; [|reflexivity].
      apply Hu in Hend; [|now left]. subst key. now rewrite eqs_refl in Hk.
  - intros k Hk. apply Hu. now right.
  - exact He.
  - destruct (endsWith file (lit "." ++ key)) eqn:Hend; [|exact Hacc].
    right. f_equal. apply Hu; [now left|exact Hend].
Qed.

(** The format of a file the backup names: the extension it was given,
    when no extension of the registry has a dot. *)
Lemma _getDataFormat_own (name dataFormat : jsstring) :
  In dataFormat (FORMATS E) ->
  (forall key, In key (FORMATS E) -> ~ In 46%N key) ->
  _getDataFormat E (name ++ lit "." ++ dataFormat) = Some dataFormat.
Proof.
  intros Hin Hdot. unfold _getDataFormat. rewrite (@fold_format _ dataFormat).
  - replace (existsb (eqs dataFormat) (FORMATS E)) with true; [reflexivity|].
    symmetry. apply existsb_exists. exists dataFormat. split; [exact Hin|apply eqs_refl].
  - intros key Hk Hend. apply endsWith_iff in Hend as [t Ht].
    change (lit "." ++ dataFormat) with (46%N :: dataFormat) in Ht.
    change (lit "." ++ key) with (46%N :: key) in Ht.
    destruct (last_dot_unique _ _ _ _ Ht) as [_ H]; auto.
  - apply endsWith_app.
  - now left.
Qed.

Lemma skipn_all_length (A : Type) (l : list A) : skipn (length l) l = [].
Proof. induction l; simpl; auto. Qed.

Lemma replace_here (s pat rep : jsstring) :
  startsWith s pat = true -> replace s pat rep = rep ++ skipn (length pat) s.
Proof. intros H. destruct s; simpl; now rewrite H. Qed.

Lemma replace_later (c : N) (s pat rep : jsstring) :
  startsWith (c :: s) pat = false -> replace (c :: s) pat rep = c :: replace s pat rep.
Proof. intros H. simpl replace. now rewrite H. Qed.

(** Removing the first occurrence of the extension gives back the name,
    when the name does not contain the extension itself. *)
Lemma replace_own (name dataFormat : jsstring) :
  ~ In 46%N dataFormat ->
  includes name (lit "." ++ dataFormat) = false ->
  replace (name ++ lit "." ++ dataFormat) (lit "." ++ dataFormat) [] = name.
Proof.
  intros Hdot. change (lit "." ++ dataFormat) with (46%N :: dataFormat).
  induction name as [|c name IH]; intros Hinc.
  - cbn [app]. rewrite replace_here
      by (apply startsWith_iff; exists []; now rewrite app_nil_r).
    apply (skipn_all_length (46%N :: dataFormat)).
  - cbn [includes] in Hinc. apply orb_false_iff in Hinc as [Hst Hinc].
    rewrite <- app_comm_cons.
    destruct (startsWith (c :: name ++ 46%N :: dataFormat) (46%N :: dataFormat)) eqn:Hs.
    + exfalso. apply startsWith_iff in Hs as [t Ht].
      rewrite app_comm_cons in Ht.
      apply app_eq_app in Ht as [l [[H1 H2]|[H1 H2]]].
      * assert (Hn : startsWith (c :: name) (46%N :: dataFormat) = true)
          by (apply startsWith_iff; now exists l).
        congruence.
      * destruct l as [|d l].
        -- rewrite app_nil_r in H1.
           assert (Hn : startsWith (c :: name) (46%N :: dataFormat) = true)
             by (apply startsWith_iff; exists []; now rewrite app_nil_r, H1).
           congruence.
        -- simpl in H2. injection H2 as Hd H2. subst d.
           simpl in H1. injection H1 as Hc H1.
           apply Hdot. rewrite H1. apply in_or_app. right. now left.
    + rewrite replace_later by exact Hs. f_equal. apply IH. exact Hinc.
Qed.

End FileNames.

(** ** Backup, then restore *)

Section RoundTrip.

Variable E : Env.
Variable this : config.

Lemma written_append (bf : jsstring) (cs : list (collection E)) (f : filesystem E) :
  NoDup (map (fileOf this bf) (filter (@eligible E) cs)) ->
  (forall c, In c cs -> eligible c = true -> lookup (fileOf this bf c) f = None) ->
  written this bf cs f =
  f ++ map (fun c => (fileOf this bf c,
                      File E (backupParsersOptions E (format this) (snd c))))
           (filter (@eligible E) cs).
Proof.
  revert f; induction cs as [|c cs IH]; intros f Hnd Hfresh.
  - unfold written. simpl. now rewrite app_nil_r.
  - rewrite written_cons. simpl filter in *. destruct (eligible c) eqn:He.
    + simpl in Hnd. inversion Hnd as [|? ? Hc Hnd']; subst.
      rewrite writeFile_fresh by (apply Hfresh; [now left|exact He]).
      rewrite IH.
      * simpl. now rewrite <- app_assoc.
      * exact Hnd'.
      * intros x Hx Hex. rewrite lookup_app, Hfresh by (auto; now right).
        simpl. destruct (eqs (fileOf this bf c) (fileOf this bf x)) eqn:Heq; [|reflexivity].
        apply eqs_eq in Heq. exfalso. apply Hc. rewrite Heq.
        apply in_map. apply filter_In. split; assumption.
    + apply IH; [exact Hnd|]. intros x Hx. apply Hfresh. now right.
Qed.

Lemma fileOf_split (bf : jsstring) (c : collection E) :
  fileOf this bf c = (bf ++ lit "/") ++ fileNameOf this c.
Proof. unfold fileOf, fileNameOf. now rewrite <- app_assoc. Qed.

Lemma existsb_slash (s : jsstring) : ~ In 47%N s -> existsb (N.eqb 47) s = false.
Proof.
  intros H. destruct (existsb (N.eqb 47) s) eqn:Hex; [|reflexivity].
  apply existsb_exists in Hex as [x [Hx Heq]]. apply N.eqb_eq in Heq. now subst x.
Qed.

Lemma entryOf_file (bf : jsstring) (c : collection E) (n : node E) :
  ~ In 47%N (fileNameOf this c) ->
  entryOf (bf ++ lit "/") (fileOf this bf c, n) = [fileNameOf this c].
Proof.
  intros Hslash.
  unfold entryOf. cbn [fst]. rewrite fileOf_split, startsWith_app, skipn_length_app.
  rewrite existsb_slash by exact Hslash.
  replace (length (bf ++ lit "/") <? length ((bf ++ lit "/") ++ fileNameOf this c))
    with true; [reflexivity|].
  symmetry. apply Nat.ltb_lt. unfold fileNameOf. rewrite !length_app. simpl. lia.
Qed.

Lemma entryOf_folder (bf : jsstring) (n : node E) :
  entryOf (bf ++ lit "/") (bf, n) = [].
Proof.
  unfold entryOf. cbn [fst].
  replace (length (bf ++ lit "/") <? length bf) with false;
    [now rewrite andb_false_r|].
  symmetry. apply Nat.ltb_ge. rewrite length_app. lia.
Qed.

(** The entries under the folder of a backup: the files of the eligible
    collections, in the order of the database. *)
Lemma entries_backup (bf : jsstring) (cs : list (collection E)) (f : filesystem E) :
  (forall p, In p (map fst f) -> startsWith p (bf ++ lit "/") = false) ->
  (forall c, In c cs -> ~ In 47%N (fileNameOf this c)) ->
  flat_map (entryOf (bf ++ lit "/"))
    (f ++ (bf, Dir E)
       :: map (fun c => (fileOf this bf c,
                         File E (backupParsersOptions E (format this) (snd c)))) cs)
  = map (fileNameOf this) cs.
Proof.
  intros Hvacant Hslash.
  rewrite flat_map_app. cbn [flat_map]. rewrite entryOf_folder. cbn [app].
  replace (flat_map (entryOf (bf ++ lit "/")) f) with (@nil jsstring).
  - cbn [app]. induction cs as [|c cs IH]; [reflexivity|].
    cbn [map flat_map]. rewrite entryOf_file by (apply Hslash; now left).
    rewrite IH; [reflexivity|]. intros x Hx. apply Hslash. now right.
  - symmetry. induction f as [|[p n] f IH]; [reflexivity|].
    cbn [flat_map]. unfold entryOf at 1. cbn [fst].
    rewrite (Hvacant p) by now left. cbn [andb app].
    apply IH. intros q Hq. apply Hvacant. now right.
Qed.

(** The listing of the folder of a backup, when the directory is listed
    in the order the files were made. *)
Lemma readdirSync_backup (bf : jsstring) (cs : list (collection E)) (f : filesystem E) :
  lookup bf f = None ->
  (forall p, In p (map fst f) -> startsWith p (bf ++ lit "/") = false) ->
  (forall c, In c cs -> ~ In 47%N (fileNameOf this c)) ->
  readdirSync (bf ++ lit "/")
    (f ++ (bf, Dir E)
       :: map (fun c => (fileOf this bf c,
                         File E (backupParsersOptions E (format this) (snd c)))) cs)
  = inr (map (fileNameOf this) cs).
Proof.
  intros Hnone Hvacant Hslash. unfold readdirSync, dirName, dirPrefix.
  rewrite endsWith_app.
  replace (removelast (bf ++ lit "/")) with bf
    by (symmetry; apply (removelast_last bf 47%N)).
  rewrite lookup_app, Hnone.
  cbn [lookup]. rewrite eqs_refl. f_equal.
  now apply entries_backup.
Qed.

Lemma names_inj (cs : list (collection E)) (x c : collection E) :
  NoDup (names cs) -> In x cs -> In c cs ->
  collectionName x = collectionName c -> x = c.
Proof.
  induction cs as [|y cs IH]; intros Hnd Hx Hc Heq; [destruct Hx|].
  simpl in Hnd. inversion Hnd as [|? ? Hy Hnd']; subst.
  destruct Hx as [->|Hx], Hc as [->|Hc]; auto.
  - exfalso. apply Hy. rewrite Heq. now apply in_map.
  - exfalso. apply Hy. rewrite <- Heq. now apply in_map.
Qed.

(** What lies at the folder of a backup, and at the file of a collection:
    one entry each. *)
Lemma backup_entry (bf : jsstring) (cs : list (collection E)) (f : filesystem E)
    (p : jsstring) (n : node E) :
  lookup bf f = None ->
  (forall q, In q (map fst f) -> startsWith q (bf ++ lit "/") = false) ->
  NoDup (names cs) ->
  In (p, n)
     (f ++ (bf, Dir E)
        :: map (fun c => (fileOf this bf c,
                          File E (backupParsersOptions E (format this) (snd c)))) cs) ->
  (p = bf -> n = Dir E)
  /\ (forall c, In c cs -> p = fileOf this bf c ->
        n = File E (backupParsersOptions E (format this) (snd c))).
Proof.
  intros Hnone Hvacant Hnd Hin.
  apply in_app_or in Hin as [Hin|[Hin|Hin]].
  - assert (Hp : In p (map fst f)) by (apply in_map_iff; now exists (p, n)).
    split.
    + intros ->. now apply lookup_In in Hnone.
    + intros c _ ->. apply Hvacant in Hp.
      rewrite fileOf_split, startsWith_app in Hp. discriminate.
  - injection Hin as <- <-. split; [reflexivity|].
    intros c _ Heq. symmetry in Heq. now apply fileOf_not_folder in Heq.
  - apply in_map_iff in Hin as [x [Hx Hin]]. injection Hx as <- <-. split.
    + intros Heq. now apply fileOf_not_folder in Heq.
    + intros c Hc Heq. apply fileOf_inj in Heq.
      now rewrite (@names_inj cs x c Hnd Hin Hc Heq).
Qed.

Section Restoring.

Variable folder : jsstring.

Hypothesis format_known : In (format this) (FORMATS E).
Hypothesis format_given : format this <> [].
Hypothesis formats_plain : forall key, In key (FORMATS E) -> ~ In 46%N key.
Hypothesis lossless :
  forall documents,
    restoreParsersOptions E (format this)
      (backupParsersOptions E (format this) documents) = Some documents.
Hypothesis bulk_sound : forall name held documents, bulk_fault E name held documents = None.

Lemma truthy_format : truthy (Some (format this)) = Some (format this).
Proof. destruct (format this); [contradiction|reflexivity]. Qed.

(** One file of the backup, restored into a world that has no request in
    flight and no collection of that name. *)
Lemma restoreLoop_backup_file (c : collection E) (files : list jsstring) (v : world E) :
  inflight v = [] ->
  ~ In (collectionName c) (names (db v)) ->
  includes (collectionName c) (lit "." ++ format this) = false ->
  lookup (fileOf this folder c) (fs v)
    = Some (File E (backupParsersOptions E (format this) (snd c))) ->
  read_fault E (fileOf this folder c) = None ->
  snd c <> [] ->
  exists v',
    restoreLoop (restoreFrom this folder) (fileNameOf this c :: files) v
      = restoreLoop (restoreFrom this folder) files v'
    /\ db v' = db v ++ [c]
    /\ fs v' = fs v
    /\ inflight v' = [].
Proof.
  intros Hq Hnew Hinc Hfile Hfault Hsome.
  assert (Hfmt : truthy (_getDataFormat E (fileNameOf this c)) = Some (format this)).
  { unfold fileNameOf.
    rewrite _getDataFormat_own by (exact format_known || exact formats_plain).
    apply truthy_format. }
  rewrite (restoreLoop_restore _ _ _ _ Hfmt).
  assert (Htarget : replace (fileNameOf this c) (lit "." ++ format this) []
                    = collectionName c)
    by (unfold fileNameOf; apply replace_own; auto using formats_plain, format_known).
  rewrite !Htarget.
  assert (Hserve : serve v = v).
  { unfold serve. rewrite Hq. unfold dropAll. simpl.
    unfold set_inflight, set_db. simpl. rewrite <- Hq. apply world_eta. }
  rewrite Hserve.
  assert (Hcreate : create (collectionName c) (db v) = db v ++ [(collectionName c, [])]).
  { unfold create.
    now replace (lookup (collectionName c) (db v)) with (@None (list (doc E)))
      by (symmetry; now apply lookup_In). }
  rewrite Hcreate. unfold _restoreCollection, readStream.
  cbn [fs emit set_db path restoreFrom].
  rewrite <- fileOf_split, Hfile, Hfault, lossless.
  unfold bulkWrite. rewrite bulk_sound.
  destruct c as [name [|document documents]]; [now contradiction Hsome|].
  cbn [snd collectionName fst] in *.
  eexists. split; [reflexivity|]. cbn [db fs inflight emit set_db].
  repeat split; auto.
  rewrite insertAll_prefix by exact Hnew. cbn [insertAll collectionName fst snd app].
  now rewrite eqs_refl.
Qed.

(** All the files of the backup, in order. *)
Lemma restoreLoop_backup_files (cs : list (collection E)) (v : world E) :
  inflight v = [] ->
  NoDup (names cs) ->
  (forall c, In c cs -> ~ In (collectionName c) (names (db v))) ->
  (forall c, In c cs -> includes (collectionName c) (lit "." ++ format this) = false) ->
  (forall c, In c cs ->
     lookup (fileOf this folder c) (fs v)
     = Some (File E (backupParsersOptions E (format this) (snd c)))) ->
  (forall c, In c cs -> read_fault E (fileOf this folder c) = None) ->
  (forall c, In c cs -> snd c <> []) ->
  fst (restoreLoop (restoreFrom this folder) (map (fileNameOf this) cs) v) = Resolved tt
  /\ db (snd (restoreLoop (restoreFrom this folder) (map (fileNameOf this) cs) v))
     = db v ++ cs
  /\ inflight (snd (restoreLoop (restoreFrom this folder) (map (fileNameOf this) cs) v))
     = [].
Proof.
  revert v; induction cs as [|c cs IH]; intros v Hq Hnd Hnew Hinc Hfile Hfault Hsome.
  - simpl. rewrite app_nil_r. auto.
  - simpl in Hnd. inversion Hnd as [|? ? Hc Hnd']; subst.
    destruct (@restoreLoop_backup_file c (map (fileNameOf this) cs) v)
      as (v' & Hstep & Hdb & Hfs & Hq'); auto using in_eq.
    cbn [map]. rewrite Hstep.
    destruct (IH v') as (H1 & H2 & H3); auto.
    + intros x Hx. rewrite Hdb. unfold names. rewrite map_app. intros Hin.
      apply in_app_or in Hin as [Hin|[Hin|[]]].
      * apply (Hnew x); [now right|exact Hin].
      * apply Hc. change (collectionName c = collectionName x) in Hin.
        rewrite Hin. now apply in_map.
    + intros x Hx. apply Hinc. now right.
    + intros x Hx. rewrite Hfs. apply Hfile. now right.
    + intros x Hx. apply Hfault. now right.
    + intros x Hx. apply Hsome. now right.
    + repeat split; auto. rewrite H2, Hdb. now rewrite <- app_assoc.
Qed.

End Restoring.

End RoundTrip.

Lemma NoDup_names_filter (E : Env) (keep : collection E -> bool) (d : dbstate E) :
  NoDup (names d) -> NoDup (names (filter keep d)).
Proof.
  induction d as [|c d IH]; simpl; intros H; [constructor|].
  inversion H as [|? ? Hc Hd]; subst.
  destruct (keep c); [|now apply IH].
  simpl. constructor; [|now apply IH].
  intros Hin. apply Hc. unfold names in *.
  apply in_map_iff in Hin as [x [Hx Hin]]. apply filter_In in Hin as [Hin _].
  apply in_map_iff. now exists x.
Qed.

(** C1, amended: back up, with success, a database whose collection names
    are pairwise distinct and contain no .{format} and no "/", and whose
    eligible collections each hold a document, in a registered format
    that loses nothing (the extensions of the registry have no dot, the
    format no "/"), into a folder under which nothing lies yet; then
    restore from that folder, in whatever order its directory is listed,
    into an empty target database, no read and no bulk write failing.
    The target ends with the eligible (non-system) collections of the
    source, each with the documents it had, and its per-collection
    document counts are those of the source over its eligible
    collections.  (The system collections of the source are not in the
    backup; an empty collection is left out because [bulkWrite] rejects
    an empty list of operations, and the promise of [_restoreCollection]
    is then never settled.) *)
Theorem backup_then_restore (E : Env) (this : config) (w wt : world E)
    (folder : jsstring) :
  NoDup (names (db w)) ->
  fst (doBackup this w)
  = Some (lit "Backup is ready. Path to backup is " ++ folder ++ lit ".") ->
  (forall p, In p (map fst (fs w)) -> startsWith p (folder ++ lit "/") = false) ->
  In (format this) (FORMATS E) ->
  format this <> [] ->
  (forall key, In key (FORMATS E) -> ~ In 46%N key) ->
  (forall documents,
     restoreParsersOptions E (format this)
       (backupParsersOptions E (format this) documents) = Some documents) ->
  (forall c, In c (db w) -> eligible c = true ->
     includes (collectionName c) (lit "." ++ format this) = false) ->
  (forall c, In c (db w) -> eligible c = true -> ~ In 47%N (collectionName c)) ->
  ~ In 47%N (format this) ->
  (forall c, In c (db w) -> eligible c = true -> snd c <> []) ->
  (forall p, read_fault E p = None) ->
  (forall name held documents, bulk_fault E name held documents = None) ->
  online wt = true ->
  db wt = [] ->
  inflight wt = [] ->
  Permutation (fs wt) (fs (snd (doBackup this w))) ->
  Permutation (db (snd (doRestore (restoreFrom this folder) wt)))
              (filter (@eligible E) (db w))
  /\ forall name,
       lookup name (counts (db (snd (doRestore (restoreFrom this folder) wt))))
       = lookup name (counts (filter (@eligible E) (db w))).
Proof.
  intros Hnd Hres Hvacant Hknown Hgiven Hplain Hlossless Hinc Hslash Hfslash Hsome
    Hfault Hbulk Ho Hdb Hq Hfs.
  assert (Hgoal : Permutation (db (snd (doRestore (restoreFrom this folder) wt)))
                              (filter (@eligible E) (db w))).
  2:{ split; [exact Hgoal|]. intros name. symmetry. apply lookup_Permutation.
      - unfold counts. rewrite map_map. cbn [fst].
        now apply NoDup_names_filter.
      - apply Permutation_map. now apply Permutation_sym. }
  destruct (@doBackupPromise_resolved E this w folder _
              (@doBackup_ready E this w folder Hres))
    as (_ & _ & _ & Hm & _ & Hw1 & _).
  rewrite Hw1, written_append, <- app_assoc in Hfs.
  2:{ now apply NoDup_fileOf. }
  2:{ intros c Hc He. rewrite lookup_app.
      replace (lookup (fileOf this folder c) (fs w)) with (@None (node E)).
      - simpl. destruct (eqs folder (fileOf this folder c)) eqn:Heq; [|reflexivity].
        apply eqs_eq in Heq. symmetry in Heq. now apply fileOf_not_folder in Heq.
      - symmetry. apply lookup_In. intros Hin. apply Hvacant in Hin.
        rewrite fileOf_split, startsWith_app in Hin. discriminate. }
  cbn [app] in Hfs.
  assert (Hnde : NoDup (names (filter (@eligible E) (db w))))
    by now apply NoDup_names_filter.
  assert (Hine : forall x, In x (filter (@eligible E) (db w)) ->
                           In x (db w) /\ eligible x = true)
    by (intros x Hx; now apply filter_In in Hx).
  assert (Hone : forall p n, In (p, n) (fs wt) ->
            (p = folder -> n = Dir E)
            /\ (forall c, In c (filter (@eligible E) (db w)) ->
                  p = fileOf this folder c ->
                  n = File E (backupParsersOptions E (format this) (snd c)))).
  { intros p n Hin. apply (Permutation_in _ Hfs) in Hin.
    exact (@backup_entry E this folder _ (fs w) p n Hm Hvacant Hnde Hin). }
  assert (Hdir : lookup folder (fs wt) = Some (Dir E)).
  { apply lookup_unique.
    - apply (Permutation_in _ (Permutation_sym Hfs)).
      apply in_or_app. right. now left.
    - intros n Hn. now apply (Hone folder n Hn). }
  assert (Hfile : forall c, In c (filter (@eligible E) (db w)) ->
            lookup (fileOf this folder c) (fs wt)
            = Some (File E (backupParsersOptions E (format this) (snd c)))).
  { intros c Hc. apply lookup_unique.
    - apply (Permutation_in _ (Permutation_sym Hfs)).
      apply in_or_app. right. right.
      apply in_map_iff. now exists c.
    - intros n Hn. now apply (proj2 (Hone _ n Hn) c). }
  assert (Hnames : forall c, In c (filter (@eligible E) (db w)) ->
                             ~ In 47%N (fileNameOf this c)).
  { intros c Hc. apply Hine in Hc as [Hc He]. unfold fileNameOf.
    intros Hin. apply in_app_or in Hin as [Hin|Hin]; [now apply (Hslash c)|].
    apply in_app_or in Hin as [[Hin|[]]|Hin]; [discriminate|contradiction]. }
  assert (Hlist : exists cs,
            Permutation (filter (@eligible E) (db w)) cs
            /\ readdirSync (path (restoreFrom this folder)) (fs wt)
               = inr (map (fileNameOf this) cs)).
  { apply (Permutation_flat_map (entryOf (folder ++ lit "/"))) in Hfs.
    rewrite entries_backup in Hfs by assumption.
    apply Permutation_map_inv in Hfs as (cs & Hcs & Hperm).
    exists cs. split; [exact Hperm|].
    unfold readdirSync, dirName, dirPrefix. cbn [path restoreFrom].
    rewrite endsWith_app.
    replace (removelast (folder ++ lit "/")) with folder
      by (symmetry; apply (removelast_last folder 47%N)).
    now rewrite Hdir, Hcs. }
  destruct Hlist as (cs & Hperm & Hlist).
  apply (fun H => Permutation_trans H (Permutation_sym Hperm)).
  destruct cs as [|c cs].
  - unfold doRestore, doRestorePromise, connected. rewrite Ho, Hlist. simpl.
    now rewrite Hq, Hdb.
  - rewrite (doRestore_listed_pair _ _ Ho Hlist) by discriminate.
    assert (Hwd : snd (_dropCollections wt) = wt).
    { clear - Hdb Hq. destruct wt. simpl in *. subst. reflexivity. }
    rewrite Hwd.
    assert (Hin : forall x, In x (c :: cs) -> In x (filter (@eligible E) (db w)))
      by (intros x Hx; now apply (Permutation_in _ (Permutation_sym Hperm))).
    destruct (@restoreLoop_backup_files E this folder Hknown Hgiven Hplain Hlossless
                Hbulk (c :: cs) wt) as (_ & H2 & H3).
    + exact Hq.
    + unfold names. apply (Permutation_NoDup (Permutation_map _ Hperm)). exact Hnde.
    + intros x _. rewrite Hdb. intros [].
    + intros x Hx. now apply Hinc; apply Hine, Hin.
    + intros x Hx. now apply Hfile, Hin.
    + intros x _. apply Hfault.
    + intros x Hx. now apply Hsome; apply Hine, Hin.
    + cbn [snd]. unfold quiesce. cbn [db set_db set_inflight].
      rewrite H3, H2, Hdb. reflexivity.
Qed.

(** ** The claims on the system pattern *)

(** C10, amended: the exclusion test is containment, not a prefix test,
    but for names without line terminators: every collection whose name
    contains [system.] and has no line terminator (line feed, carriage
    return, U+2028, U+2029) is taken for a system collection; whatever a
    backup run does, the file it would have is not written; and the drop
    phase of a restore makes no request for it, so that it is still in the
    database after [doRestore]. *)
Theorem system_name_by_containment (E : Env) (this : config) (name : jsstring) :
  includes name (lit "system.") = true ->
  noLineTerminator name = true ->
  _systemCollection name = true
  /\ (forall (w : world E) (documents : list (doc E)),
        lookup (fileOf this (backupFolderAt this (clock w)) (name, documents))
               (fs (snd (doBackup this w)))
        = lookup (fileOf this (backupFolderAt this (clock w)) (name, documents)) (fs w))
  /\ (forall w : world E,
        inflight w = [] ->
        In name (names (db w)) ->
        ~ In name (map fst (inflight (snd (_dropCollections w))))
        /\ In name (names (db (snd (doRestore this w))))).
Proof.
  intros Hinc Hline.
  assert (Hs : _systemCollection name = true)
    by (apply systemRegex_iff; now split).
  split; [exact Hs|]. split.
  - intros w documents. now apply doBackup_omits_system.
  - intros w Hq Hin. now apply doRestore_keeps_system.
Qed.

Lemma system_name_by_containment_witness :
  includes (lit "ecosystem.stats") (lit "system.") = true
  /\ noLineTerminator (lit "ecosystem.stats") = true
  /\ _systemCollection (lit "ecosystem.stats") = true
  /\ lookup (lit "/backups/1541116800000_shop/ecosystem.stats.json")
            (fs (snd (doBackup Shop.this Shop.withStats))) = None.
Proof.
  split; [reflexivity|]. split; [reflexivity|].
  destruct (@system_name_by_containment Shop.env Shop.this (lit "ecosystem.stats")
              eq_refl eq_refl) as (H1 & H2 & _).
  split; [exact H1|].
  exact (H2 Shop.withStats [7; 8]%N).
Defined.

(** C10 does not hold of every name.  One that contains [system.] after
    a line feed is not taken for a system collection: its file is written
    by the backup. *)
Lemma system_name_with_line_feed :
  includes Shop.auditLog (lit "system.") = true
  /\ _systemCollection Shop.auditLog = false
  /\ lookup (lit "/backups/1541116800000_shop/" ++ Shop.auditLog ++ lit ".json")
            (fs (snd (doBackup Shop.this Shop.withAudit)))
     = Some (File Shop.env [9%N]).
Proof. vm_compute. repeat split. Qed.

(** C3: a file named after a system collection in the restore directory.
    The backup loop and the drop phase test [_systemCollection]
    ([doBackup_omits_system], [doRestore_keeps_system]); the restore loop
    does not: from the file system.indexes.json it creates the collection
    system.indexes and fills it. *)
Theorem restore_creates_system_collection :
  _systemCollection (lit "system.indexes") = true
  /\ targetOf Shop.env (lit "system.indexes.json") = Some (lit "system.indexes")
  /\ fst (doRestore Shop.fromDump Shop.withSystemFile) = Some (lit "Database restored")
  /\ db (snd (doRestore Shop.fromDump Shop.withSystemFile))
     = [(lit "system.indexes", [7; 8]%N)].
Proof. vm_compute. repeat split. Qed.

(** C9: a file whose name has its extension twice.  The format is read off
    the end of the name, but [replace] removes the first occurrence of the
    extension: logs.json.old.json goes to the collection logs.old.json,
    not to logs.json.old. *)
Theorem restore_strips_first_occurrence :
  _getDataFormat Shop.env (lit "logs.json.old.json") = Some (lit "json")
  /\ lit "logs.json.old.json" = lit "logs.json.old" ++ lit "." ++ lit "json"
  /\ targetOf Shop.env (lit "logs.json.old.json") = Some (lit "logs.old.json")
  /\ db (snd (doRestore Shop.fromDump Shop.withOldLogs))
     = [(lit "logs.old.json", [1; 2]%N)].
Proof. vm_compute. repeat split. Qed.

(** C5: a transfer that fails on the write side.  The file of the
    collection logs/2018 cannot be opened: the directory logs under the
    folder of the backup does not exist.  The write stream has no
    [error] listener and [pipe] is not given [reject], so the error is
    thrown as an uncaught exception: the promise [doBackup] returns is
    never settled, no error sentence reaches the caller, and the spinner
    is left running.  (The run does end there: orders, listed after, is
    not transferred.) *)
Theorem backup_write_failure_uncaught :
  fst (doBackup Shop.this Shop.nested) = None
  /\ trace (snd (doBackup Shop.this Shop.nested))
     = [SpinnerRun (lit "Backing up users ...");
        SpinnerStop;
        SpinnerRun (lit "Backing up logs/2018 ...");
        Uncaught (lit "ENOENT: no such file or directory, open '/backups/1541116800000_shop/logs/2018.json'")]
  /\ lookup (lit "/backups/1541116800000_shop/users.json")
            (fs (snd (doBackup Shop.this Shop.nested)))
     = Some (File Shop.env [1; 2; 3]%N)
  /\ lookup (lit "/backups/1541116800000_shop/logs/2018.json")
            (fs (snd (doBackup Shop.this Shop.nested))) = None
  /\ lookup (lit "/backups/1541116800000_shop/orders.json")
            (fs (snd (doBackup Shop.this Shop.nested))) = None.
Proof. vm_compute. repeat split. Qed.

(** ** The claims at work in the shop *)

Lemma shop_names_distinct : NoDup (names (db Shop.source)).
Proof.
  repeat constructor; simpl; intuition discriminate.
Qed.

Lemma backup_layout_witness :
  fst (doBackup Shop.this Shop.source)
  = Some (lit "Backup is ready. Path to backup is /backups/1541116800000_shop.")
  /\ lookup (lit "/backups/1541116800000_shop") (fs Shop.source) = None
  /\ lookup (lit "/backups/1541116800000_shop") (fs (snd (doBackup Shop.this Shop.source)))
     = Some (Dir Shop.env)
  /\ lookup (lit "/backups/1541116800000_shop/users.json")
            (fs (snd (doBackup Shop.this Shop.source)))
     = Some (File Shop.env [1; 2; 3]%N).
Proof.
  split; [reflexivity|].
  destruct (@backup_layout Shop.env Shop.this Shop.source
              (lit "/backups/1541116800000_shop") shop_names_distinct eq_refl)
    as (_ & _ & H1 & H2 & H3 & _).
  split; [exact H1|]. split; [exact H2|].
  apply (H3 Shop.users); [now left|reflexivity].
Defined.

Lemma unrecognized_file_is_skipped_witness :
  fst (doRestore Shop.fromDump Shop.withNotes) = Some (lit "Database restored")
  /\ db (snd (doRestore Shop.fromDump Shop.withNotes)) = [Shop.users; Shop.orders].
Proof.
  destruct (@unrecognized_file_is_skipped Shop.env Shop.fromDump Shop.withNotes
              [lit "users.json"] [lit "orders.json"] (lit "notes.txt")
              eq_refl eq_refl eq_refl) as (_ & H1 & H2).
  split; [exact H1|exact H2].
Defined.

Lemma restore_aborts_at_read_failure_witness :
  fst (doRestore Shop.fromDump Shop.damaged)
  = Some (lit "Error while restoring database. Can't restore orders. EIO: i/o error, read").
Proof.
  exact (proj1 (@restore_aborts_at_read_failure Shop.unreadable Shop.fromDump Shop.damaged
                  [lit "users.json"] [lit "carts.json"] (lit "orders.json") (lit "json")
                  (lit "EIO: i/o error, read") eq_refl eq_refl eq_refl eq_refl eq_refl)).
Defined.

(** C4 does not hold of the driver.  On [Shop.damaged] the read error on
    orders.json ends the restore with the error sentence, and carts.json,
    listed after it, is not restored. *)
Lemma restore_stops_at_damaged_file :
  fst (doRestore Shop.fromDump Shop.damaged)
  = Some (lit "Error while restoring database. Can't restore orders. EIO: i/o error, read")
  /\ fst (doRestore Shop.fromDump Shop.damaged) <> Some (lit "Database restored")
  /\ readdirSync (path Shop.fromDump) (fs Shop.damaged)
     = inr [lit "users.json"; lit "orders.json"; lit "carts.json"]
  /\ lookup (lit "carts") (db (snd (doRestore Shop.fromDump Shop.damaged))) = None.
Proof. vm_compute. repeat split. discriminate. Qed.

Lemma restore_twice_witness :
  counts (db (snd (doRestore Shop.fromDump (snd (doRestore Shop.fromDump Shop.dump)))))
  = counts (db (snd (doRestore Shop.fromDump Shop.dump))).
Proof.
  refine (proj2 (proj2 (@restore_twice Shop.env Shop.fromDump Shop.dump eq_refl
                          (fun _ => eq_refl) _))).
  intros files file name Hr Hin Ht.
  vm_compute in Hr. injection Hr as <-.
  destruct Hin as [<-|[<-|[]]]; vm_compute in Ht; injection Ht as <-; reflexivity.
Defined.

(** C2 does not hold of the driver.  On [Shop.withSystemTarget] the
    collection mysystem.data is never dropped, and the second restore adds
    the documents of the file to it again. *)
Lemma second_restore_doubles_system_named :
  counts (db (snd (doRestore Shop.fromDump Shop.withSystemTarget)))
  = [(lit "mysystem.data", 2)]
  /\ counts (db (snd (doRestore Shop.fromDump
                        (snd (doRestore Shop.fromDump Shop.withSystemTarget)))))
     = [(lit "mysystem.data", 4)]
  /\ counts (db (snd (doRestore Shop.fromDump
                        (snd (doRestore Shop.fromDump Shop.withSystemTarget)))))
     <> counts (db (snd (doRestore Shop.fromDump Shop.withSystemTarget))).
Proof. vm_compute. repeat split. discriminate. Qed.

Lemma backup_then_restore_witness :
  Permutation
    (db (snd (doRestore (restoreFrom Shop.this (lit "/backups/1541116800000_shop"))
                (Shop.emptyTarget (snd (doBackup Shop.this Shop.source))))))
    [Shop.users; Shop.orders].
Proof.
  refine (proj1 (@backup_then_restore Shop.env Shop.this Shop.source
                   (Shop.emptyTarget (snd (doBackup Shop.this Shop.source)))
                   (lit "/backups/1541116800000_shop")
                   shop_names_distinct eq_refl _ _ _ _ (fun _ => eq_refl) _ _ _ _
                   (fun _ => eq_refl) (fun _ _ _ => eq_refl)
                   eq_refl eq_refl eq_refl (Permutation_refl _))).
  - intros p [<-|[<-|[]]]; reflexivity.
  - now left.
  - discriminate.
  - intros key [<-|[<-|[]]]; simpl; intuition discriminate.
  - intros c [<-|[<-|[]]] _; reflexivity.
  - intros c [<-|[<-|[]]] _; simpl; intuition discriminate.
  - simpl; intuition discriminate.
  - intros c [<-|[<-|[]]] _; discriminate.
Defined.

(** C1 does not hold of the driver.  On [Shop.withStats] the backup
    succeeds, the restore into an empty target succeeds, and the target
    has no collection ecosystem.stats. *)
Lemma roundtrip_loses_system_named :
  fst (doBackup Shop.this Shop.withStats)
  = Some (lit "Backup is ready. Path to backup is /backups/1541116800000_shop.")
  /\ fst (doRestore (restoreFrom Shop.this (lit "/backups/1541116800000_shop"))
            (Shop.emptyTarget (snd (doBackup Shop.this Shop.withStats))))
     = Some (lit "Database restored")
  /\ counts (db Shop.withStats) = [(lit "users", 3); (lit "ecosystem.stats", 2)]
  /\ counts (db (snd (doRestore (restoreFrom Shop.this (lit "/backups/1541116800000_shop"))
                        (Shop.emptyTarget (snd (doBackup Shop.this Shop.withStats))))))
     = [(lit "users", 3)]
  /\ counts (db (snd (doRestore (restoreFrom Shop.this (lit "/backups/1541116800000_shop"))
                        (Shop.emptyTarget (snd (doBackup Shop.this Shop.withStats))))))
     <> counts (db Shop.withStats).
Proof. vm_compute. repeat split. discriminate. Qed.

(** * Further properties of the driver *)

(** ** The tests on names *)

(** X1: [_systemCollection] holds of the names that contain [system.] and
    have no line terminator, and of no other name: a name without
    [system.] is never taken for a system collection. *)
Theorem systemCollection_exact (name : jsstring) :
  _systemCollection name = true <->
  includes name (lit "system.") = true /\ noLineTerminator name = true.
Proof. unfold _systemCollection. apply systemRegex_iff. Qed.

Lemma includes_longer (s p q : jsstring) :
  includes s (p ++ q) = true -> includes s p = true.
Proof.
  rewrite !includes_iff. intros [a [b ->]]. exists a, (q ++ b).
  now rewrite <- app_assoc.
Qed.

(** X2: a name [_systemIndexesCollection] accepts is one
    [_systemCollection] accepts, unless it has a line terminator. *)
Theorem systemIndexes_is_system (name : jsstring) :
  _systemIndexesCollection name = true ->
  noLineTerminator name = true ->
  _systemCollection name = true.
Proof.
  unfold _systemIndexesCollection. intros Hidx Hline.
  apply systemRegex_iff. split; [|exact Hline].
  apply (includes_longer name (lit "system.") (lit "indexes")). exact Hidx.
Qed.

Lemma systemIndexes_is_system_witness :
  _systemIndexesCollection (lit "shop.system.indexes") = true
  /\ _systemCollection (lit "shop.system.indexes") = true.
Proof.
  split; [reflexivity|].
  apply systemIndexes_is_system; reflexivity.
Defined.

Section DataFormat.

Variable E : Env.

Lemma fold_left_last (A B : Type) (f : A -> B -> A) (l : list B) (x : B) (a : A) :
  fold_left f (l ++ [x]) a = f (fold_left f l a) x.
Proof. now rewrite fold_left_app. Qed.

(** The reduction over a list of keys: the last key that fits. *)
Lemma reduce_last (fits : jsstring -> bool) (keys : list jsstring) (key : jsstring) :
  fold_left (fun found k => if fits k then Some k else found) keys None = Some key <->
  exists before after,
    keys = before ++ key :: after
    /\ fits key = true
    /\ forall k, In k after -> fits k = false.
Proof.
  induction keys as [|x l IH] using rev_ind.
  - simpl. split; [discriminate|]. intros [[|? ?] [after [H _]]]; discriminate.
  - rewrite fold_left_last. destruct (fits x) eqn:Hx.
    + split.
      * intros H. injection H as <-. exists l, []. repeat split; auto.
        intros k [].
      * intros [before [after [Hk [Hfit Hafter]]]].
        destruct after as [|y after _] using rev_ind.
        -- apply app_inj_tail in Hk as [_ ->]. reflexivity.
        -- rewrite app_comm_cons, app_assoc in Hk.
           apply app_inj_tail in Hk as [_ ->].
           rewrite Hafter in Hx; [discriminate|]. apply in_or_app. right. now left.
    + rewrite IH. split.
      * intros [before [after [-> [Hfit Hafter]]]].
        exists before, (after ++ [x]). rewrite <- app_assoc. repeat split; auto.
        intros k Hk. apply in_app_or in Hk as [Hk|[<-|[]]]; auto.
      * intros [before [after [Hk [Hfit Hafter]]]].
        destruct after as [|y after _] using rev_ind.
        -- apply app_inj_tail in Hk as [_ ->]. congruence.
        -- rewrite app_comm_cons, app_assoc in Hk.
           apply app_inj_tail in Hk as [-> ->].
           exists before, after. repeat split; auto.
           intros k Hk. apply Hafter. apply in_or_app. now left.
Qed.

Lemma reduce_none (fits : jsstring -> bool) (keys : list jsstring) :
  fold_left (fun found k => if fits k then Some k else found) keys None = None <->
  forall k, In k keys -> fits k = false.
Proof.
  induction keys as [|x l IH] using rev_ind.
  - simpl. split; [intros _ k []|reflexivity].
  - rewrite fold_left_last. destruct (fits x) eqn:Hx.
    + split; [discriminate|]. intros H.
      rewrite H in Hx; [discriminate|]. apply in_or_app. right. now left.
    + rewrite IH. split.
      * intros H k Hk. apply in_app_or in Hk as [Hk|[<-|[]]]; auto.
      * intros H k Hk. apply H. apply in_or_app. now left.
Qed.

(** X3: [_getDataFormat] gives the last value of [FORMATS] such that the
    file name ends with a dot and that value: a value of the registry,
    after which no value of the registry fits the name. *)
Theorem _getDataFormat_last (fileName key : jsstring) :
  _getDataFormat E fileName = Some key <->
  exists before after,
    FORMATS E = before ++ key :: after
    /\ endsWith fileName (lit "." ++ key) = true
    /\ forall k, In k after -> endsWith fileName (lit "." ++ k) = false.
Proof.
  unfold _getDataFormat.
  apply (reduce_last (fun k => endsWith fileName (lit "." ++ k))).
Qed.

(** X4: [_getDataFormat] gives [null] when the file name ends with a dot
    and a value of [FORMATS] for no value of the registry, and then
    only. *)
Theorem _getDataFormat_null (fileName : jsstring) :
  _getDataFormat E fileName = None <->
  forall key, In key (FORMATS E) -> endsWith fileName (lit "." ++ key) = false.
Proof.
  unfold _getDataFormat.
  apply (reduce_none (fun k => endsWith fileName (lit "." ++ k))).
Qed.

(** X5: the name the backup gives the file of a collection leads the
    restore back to the collection: for a registered, non-empty format, in
    a registry whose values have no dot, the file {name}.{format} goes to
    the collection {name}, when {name} does not contain .{format}. *)
Theorem targetOf_fileNameOf (this : config) (c : collection E) :
  In (format this) (FORMATS E) ->
  format this <> [] ->
  (forall key, In key (FORMATS E) -> ~ In 46%N key) ->
  includes (collectionName c) (lit "." ++ format this) = false ->
  targetOf E (fileNameOf this c) = Some (collectionName c).
Proof.
  intros Hknown Hgiven Hplain Hinc. unfold targetOf, fileNameOf.
  rewrite _getDataFormat_own by assumption.
  destruct (format this) as [|d fmt] eqn:Hfmt; [contradiction|].
  cbn [truthy]. f_equal. apply replace_own; [|exact Hinc].
  apply Hplain. exact Hknown.
Qed.

End DataFormat.

Lemma targetOf_fileNameOf_witness :
  targetOf Shop.env (@fileNameOf Shop.env Shop.this Shop.users) = Some (lit "users").
Proof.
  apply (@targetOf_fileNameOf Shop.env Shop.this Shop.users).
  - now left.
  - discriminate.
  - intros key [<-|[<-|[]]]; simpl; intuition discriminate.
  - reflexivity.
Defined.

(** ** Backup runs *)

Lemma runs_snoc (t : list event) (e : event) :
  runs (t ++ [e]) = runs t + (if isRun e then 1 else 0).
Proof.
  unfold runs. rewrite filter_app, length_app. simpl. now destruct (isRun e).
Qed.

Lemma stops_snoc (t : list event) (e : event) :
  stops (t ++ [e]) = stops t + (if isStop e then 1 else 0).
Proof.
  unfold stops. rewrite filter_app, length_app. simpl. now destruct (isStop e).
Qed.

Lemma notes_snoc (t : list event) (e : event) :
  notes (t ++ [e]) = notes t + (if isNote e then 1 else 0).
Proof.
  unfold notes. rewrite filter_app, length_app. simpl. now destruct (isNote e).
Qed.

Section BackupExtras.

Variable E : Env.
Variable this : config.

Lemma startsWith_app_both (a s p : jsstring) :
  startsWith (a ++ s) (a ++ p) = startsWith s p.
Proof.
  induction a as [|c a IH]; [reflexivity|].
  cbn [app startsWith]. now rewrite N.eqb_refl, IH.
Qed.

Lemma backupLoop_spinner (bf : jsstring) (cs : list (collection E)) (w : world E) :
  match fst (backupLoop this bf cs w) with
  | Resolved _ =>
      runs (trace (snd (backupLoop this bf cs w))) + stops (trace w)
      = stops (trace (snd (backupLoop this bf cs w))) + runs (trace w)
  | Rejected e =>
      S (runs (trace (snd (backupLoop this bf cs w))) + stops (trace w))
      = stops (trace (snd (backupLoop this bf cs w))) + runs (trace w)
      /\ exists rest, e = ErrString (lit "Can't back up " ++ rest)
  | Unsettled =>
      runs (trace (snd (backupLoop this bf cs w))) + stops (trace w)
      = S (stops (trace (snd (backupLoop this bf cs w))) + runs (trace w))
      /\ exists t message,
           trace (snd (backupLoop this bf cs w)) = t ++ [Uncaught message]
  end.
Proof.
  revert w; induction cs as [|c cs IH]; intros w; [simpl; lia|].
  destruct (_systemCollection (collectionName c)) eqn:Hs.
  - rewrite backupLoop_system by exact Hs. apply IH.
  - rewrite backupLoop_eligible by exact Hs. unfold _backupCollection.
    destruct (writeError _ _) as [failure|]; cbv beta iota zeta.
    + cbn [fst snd trace emit]. split.
      * rewrite !runs_snoc, !stops_snoc. simpl. lia.
      * eexists. eexists. reflexivity.
    + destruct (cursor E (collectionName c)); cbv beta iota zeta.
      * match goal with
        | |- context [backupLoop this bf cs ?v] => specialize (IH v); revert IH
        end.
        destruct (fst (backupLoop _ _ _ _)); cbn [trace emit set_fs];
          rewrite !runs_snoc, !stops_snoc; simpl; intros IH;
          [lia|split; [lia|apply IH]|split; [lia|apply IH]].
      * cbn [fst snd trace emit set_fs]. rewrite !runs_snoc, !stops_snoc. split.
        -- simpl. lia.
        -- eexists. reflexivity.
Qed.

Lemma doBackup_outcome (w : world E) :
  match fst (doBackupPromise this w) with
  | Resolved _ =>
      runs (trace (snd (doBackup this w))) + stops (trace w)
      = stops (trace (snd (doBackup this w))) + runs (trace w)
  | Rejected e =>
      if startsWith (toString e) (lit "Can't back up ")
      then S (runs (trace (snd (doBackup this w))) + stops (trace w))
           = stops (trace (snd (doBackup this w))) + runs (trace w)
      else runs (trace (snd (doBackup this w))) + stops (trace w)
           = stops (trace (snd (doBackup this w))) + runs (trace w)
  | Unsettled =>
      runs (trace (snd (doBackup this w))) + stops (trace w)
      = S (stops (trace (snd (doBackup this w))) + runs (trace w))
      /\ exists t message, trace (snd (doBackup this w)) = t ++ [Uncaught message]
  end.
Proof.
  unfold doBackup, doBackupPromise, connected.
  destruct (online w).
  2:{ cbn [fst snd toString]. destruct (null_client E); simpl; lia. }
  destruct (Nat.eqb _ _); [simpl; lia|].
  unfold _backupCollections, mkdirSync.
  destruct (exists_path _ _); [simpl; lia|].
  unfold bind.
  pose proof (backupLoop_spinner (backupFolderAt this (clock w)) (db w)
                (set_fs (fs w ++ [(backupFolderAt this (clock w), Dir E)]) w)) as H.
  destruct (backupLoop _ _ _ _) as [[u|e|] w']; cbn [fst snd] in *.
  - simpl in *. lia.
  - destruct H as [H [rest ->]]. cbn [toString]. rewrite startsWith_app.
    simpl in *. lia.
  - exact H.
Qed.

(** X6: the promise [doBackup] returns never rejects.  When it settles it
    resolves with one of two sentences: that the backup is ready, with a
    path, or that there was an error while backing up, with a detail.
    Every stream of a cursor ending or failing, it stays pending in one
    case only: the file of a collection could not be opened for writing,
    and the error of the write stream, which has no listener, was thrown
    as an uncaught exception, the last thing the run did. *)
Theorem doBackup_sentences (w : world E) :
  match fst (doBackup this w) with
  | Some sentence =>
      startsWith sentence (lit "Backup is ready. Path to backup is ") = true
      \/ startsWith sentence (lit "Error while backing up database. ") = true
  | None =>
      exists t message, trace (snd (doBackup this w)) = t ++ [Uncaught message]
  end.
Proof.
  pose proof (doBackup_outcome w) as H. revert H. unfold doBackup.
  destruct (doBackupPromise this w) as [[bf|e|] w']; cbn [fst snd]; intros H.
  - left. apply startsWith_app.
  - right. apply startsWith_app.
  - apply H.
Qed.

(** X7: the spinner over a backup run.  A run that ends with the error
    sentence of a failed transfer has stopped the spinner once more than
    it has started it: the stream of a cursor that fails emits [error]
    and then [end], and both handlers stop the spinner.  A run that ends
    with any other sentence has stopped it as often as it has started
    it.  A run whose promise stays pending has started the spinner once
    more than it has stopped it: the spinner of the collection whose file
    could not be opened is never stopped. *)
Theorem doBackup_stops_spinner (w : world E) :
  match fst (doBackup this w) with
  | Some sentence =>
      if startsWith sentence (lit "Error while backing up database. Can't back up ")
      then S (runs (trace (snd (doBackup this w))) + stops (trace w))
           = stops (trace (snd (doBackup this w))) + runs (trace w)
      else runs (trace (snd (doBackup this w))) + stops (trace w)
           = stops (trace (snd (doBackup this w))) + runs (trace w)
  | None =>
      runs (trace (snd (doBackup this w))) + stops (trace w)
      = S (stops (trace (snd (doBackup this w))) + runs (trace w))
  end.
Proof.
  pose proof (doBackup_outcome w) as H. revert H. unfold doBackup.
  destruct (doBackupPromise this w) as [[bf|e|] w']; cbn [fst snd]; intros H.
  - exact H.
  - change (lit "Error while backing up database. Can't back up ")
      with (lit "Error while backing up database. " ++ lit "Can't back up ").
    rewrite startsWith_app_both. exact H.
  - apply H.
Qed.

Lemma backupLoop_runs (bf : jsstring) (cs : list (collection E)) (w w' : world E) u :
  backupLoop this bf cs w = (Resolved u, w') ->
  runs (trace w') = runs (trace w) + length (filter (@eligible E) cs).
Proof.
  revert w; induction cs as [|c cs IH]; intros w.
  - intros H. injection H as _ <-. simpl. lia.
  - simpl filter. unfold eligible at 1.
    destruct (_systemCollection (collectionName c)) eqn:Hs; simpl negb; cbv iota.
    + rewrite backupLoop_system by exact Hs. apply IH.
    + rewrite backupLoop_eligible by exact Hs. unfold _backupCollection.
      destruct (writeError _ _) as [failure|]; cbv beta iota zeta; [discriminate|].
      destruct (cursor E (collectionName c)); cbv beta iota zeta; [|discriminate].
      intros H. apply IH in H. rewrite H. cbn [trace emit set_fs].
      rewrite !runs_snoc. simpl. lia.
Qed.

(** X8: a backup that is ready has started the spinner once for every
    eligible collection of the database, and for no other. *)
Theorem doBackup_one_spinner_each (w : world E) (folder : jsstring) :
  fst (doBackup this w)
  = Some (lit "Backup is ready. Path to backup is " ++ folder ++ lit ".") ->
  runs (trace (snd (doBackup this w)))
  = runs (trace w) + length (filter (@eligible E) (db w)).
Proof.
  intros Hready. pose proof (@doBackup_ready E this w folder Hready) as Hp.
  revert Hp. generalize (snd (doBackup this w)). intros w'.
  unfold doBackupPromise, connected.
  destruct (online w); [|discriminate].
  destruct (Nat.eqb _ _); [discriminate|].
  unfold _backupCollections. destruct (mkdirSync _ _) as [e|f]; [discriminate|].
  unfold bind.
  destruct (backupLoop this (backupFolderAt this (clock w)) (db w) (set_fs f w))
    as [[[]|e|] w1] eqn:Hloop; try discriminate.
  unfold ret. intros H. injection H as _ <-.
  now rewrite (backupLoop_runs _ _ _ Hloop).
Qed.

(** X9: a backup run, ended or aborted, leaves the database as it is, and
    leaves every path of the file system that is neither its folder nor
    under its folder as it is. *)
Theorem doBackup_confined (w : world E) :
  db (snd (doBackup this w)) = db w
  /\ forall p,
       p <> backupFolderAt this (clock w) ->
       startsWith p (backupFolderAt this (clock w) ++ lit "/") = false ->
       lookup p (fs (snd (doBackup this w))) = lookup p (fs w).
Proof.
  unfold doBackup, doBackupPromise, connected.
  destruct (online w); [|split; reflexivity].
  destruct (Nat.eqb _ _); [split; reflexivity|].
  unfold _backupCollections, mkdirSync.
  destruct (exists_path _ _); [split; reflexivity|]. unfold bind.
  pose proof (backupLoop_db this (backupFolderAt this (clock w)) (db w)
                (set_fs (fs w ++ [(backupFolderAt this (clock w), Dir E)]) w)) as Hdb.
  assert (Hfs : forall p,
            p <> backupFolderAt this (clock w) ->
            startsWith p (backupFolderAt this (clock w) ++ lit "/") = false ->
            lookup p (fs (snd (backupLoop this (backupFolderAt this (clock w)) (db w)
                    (set_fs (fs w ++ [(backupFolderAt this (clock w), Dir E)]) w))))
            = lookup p (fs w)).
  { intros p Hp Hout. rewrite backupLoop_lookup_other.
    - cbn [fs set_fs]. rewrite lookup_app. destruct (lookup p (fs w)); [reflexivity|].
      simpl. destruct (eqs _ p) eqn:Heq; [|reflexivity].
      apply eqs_eq in Heq. congruence.
    - intros c _ _ Heq. rewrite <- Heq, fileOf_split, startsWith_app in Hout.
      discriminate. }
  destruct (backupLoop _ _ _ _) as [[[]|e|] w']; simpl in *; split; auto.
Qed.

Lemma backupLoop_folderMade (bf : jsstring) (cs : list (collection E)) (d : dbstate E)
    (w : world E) :
  backupLoop this bf cs (folderMade this (set_db d w)) =
  (fst (backupLoop this bf cs (folderMade this w)),
   set_db d (snd (backupLoop this bf cs (folderMade this w)))).
Proof. apply (backupLoop_set_db this bf cs d (folderMade this w)). Qed.

Lemma doBackup_folderMade (w : world E) (c : collection E) (cs : list (collection E)) :
  online w = true ->
  db w = c :: cs ->
  exists_path (backupFolderAt this (clock w)) (fs w) = false ->
  doBackupPromise this w =
  match backupLoop this (backupFolderAt this (clock w)) (db w) (folderMade this w) with
  | (Resolved _, w') => (Resolved (backupFolderAt this (clock w)), w')
  | (Rejected e, w') => (Rejected e, w')
  | (Unsettled, w') => (Unsettled, w')
  end.
Proof.
  intros Ho Hd Hm. unfold doBackupPromise, connected. rewrite Ho, Hd.
  simpl Nat.eqb. cbv iota.
  unfold _backupCollections, mkdirSync. rewrite Hm, Hd. unfold bind, folderMade.
  destruct (backupLoop _ _ _ _) as [[u|e|] w']; reflexivity.
Qed.

(** A run over [pre ++ c :: tail] in which the transfer of [c] is the
    first that does not resolve. *)
Lemma doBackup_stops_at (w : world E) (pre tail : list (collection E))
    (c : collection E) (d : dbstate E) :
  online w = true ->
  exists_path (backupFolderAt this (clock w)) (fs w) = false ->
  fst (backupLoop this (backupFolderAt this (clock w)) pre (folderMade this w))
  = Resolved tt ->
  eligible c = true ->
  (forall u, fst (_backupCollection c (fileOf this (backupFolderAt this (clock w)) c)
                    (backupParsersOptions E (format this))
                    (snd (backupLoop this (backupFolderAt this (clock w)) pre
                            (folderMade this w)))) <> Resolved u) ->
  fst (doBackupPromise this (set_db (pre ++ c :: tail) w))
  = match fst (_backupCollection c (fileOf this (backupFolderAt this (clock w)) c)
                 (backupParsersOptions E (format this))
                 (snd (backupLoop this (backupFolderAt this (clock w)) pre
                         (folderMade this w)))) with
    | Resolved _ => Unsettled
    | Rejected e => Rejected e
    | Unsettled => Unsettled
    end
  /\ snd (doBackupPromise this (set_db (pre ++ c :: tail) w))
     = set_db (pre ++ c :: tail)
         (snd (_backupCollection c (fileOf this (backupFolderAt this (clock w)) c)
                 (backupParsersOptions E (format this))
                 (snd (backupLoop this (backupFolderAt this (clock w)) pre
                         (folderMade this w))))).
Proof.
  intros Ho Hm Hpre Hc Hstop.
  assert (Hs : _systemCollection (collectionName c) = false).
  { unfold eligible in Hc. now destruct (_systemCollection _). }
  assert (Hne : exists x xs, pre ++ c :: tail = x :: xs)
    by (destruct pre; eexists; eexists; reflexivity).
  destruct Hne as (x & xs & Hne).
  rewrite (@doBackup_folderMade (set_db (pre ++ c :: tail) w) x xs Ho Hne Hm).
  cbn [clock db set_db]. rewrite backupLoop_folderMade, backupLoop_app.
  destruct (backupLoop this _ pre (folderMade this w)) as [r wp].
  cbn [fst snd] in *. subst r. rewrite backupLoop_eligible by exact Hs.
  pose proof (Hstop tt) as Hnot.
  destruct (_backupCollection c _ _ wp) as [[[]|e|] wc]; cbn [fst snd] in *;
    [congruence|split; reflexivity|split; reflexivity].
Qed.

(** X23: in a backup run, let [c] be the first collection whose transfer
    fails on the read side: its file is opened, and the stream of its
    cursor emits an error (the collections listed before it are backed
    up).  Then [doBackup] resolves with one sentence, the error sentence
    that names [c], and the run stops there: the world it leaves is the
    one of a run over a database listing cut after [c], so that no
    collection listed after [c] is transferred. *)
Theorem backup_aborts_at_read_failure (w : world E) (pre post : list (collection E))
    (c : collection E) (delivered : nat) (message : jsstring) :
  online w = true ->
  db w = pre ++ c :: post ->
  exists_path (backupFolderAt this (clock w)) (fs w) = false ->
  fst (backupLoop this (backupFolderAt this (clock w)) pre (folderMade this w))
  = Resolved tt ->
  eligible c = true ->
  writeError (fileOf this (backupFolderAt this (clock w)) c)
    (fs (snd (backupLoop this (backupFolderAt this (clock w)) pre (folderMade this w))))
  = None ->
  cursor E (collectionName c) = StreamError delivered message ->
  fst (doBackup this w) =
    Some (lit "Error while backing up database. Can't back up "
            ++ collectionName c ++ lit ". " ++ message)
  /\ snd (doBackup this w) =
     set_db (db w) (snd (doBackup this (set_db (pre ++ [c]) w))).
Proof.
  intros Ho Hd Hm Hpre Hc Hopen Herr.
  assert (Hstop : forall u,
            fst (_backupCollection c (fileOf this (backupFolderAt this (clock w)) c)
                   (backupParsersOptions E (format this))
                   (snd (backupLoop this (backupFolderAt this (clock w)) pre
                           (folderMade this w)))) <> Resolved u).
  { intros u. unfold _backupCollection. cbn [fs emit]. rewrite Hopen, Herr.
    discriminate. }
  destruct (@doBackup_stops_at w pre post c (db w) Ho Hm Hpre Hc Hstop) as [H1 H2].
  destruct (@doBackup_stops_at w pre [] c (db w) Ho Hm Hpre Hc Hstop) as [H3 H4].
  replace (set_db (pre ++ c :: post) w) with w in H1, H2
    by (rewrite <- Hd; unfold set_db; symmetry; apply world_eta).
  unfold doBackup.
  destruct (doBackupPromise this w) as [r1 w1].
  destruct (doBackupPromise this (set_db (pre ++ [c]) w)) as [r2 w2].
  cbn [fst snd] in *. subst r1 w1 r2 w2.
  unfold _backupCollection. cbn [fs emit]. rewrite Hopen, Herr. cbn [fst snd].
  rewrite Hd. split; reflexivity.
Qed.

(** X24: in a backup run, let [c] be the first collection whose file
    cannot be opened for writing (the collections listed before it are
    backed up).  The error of the write stream is thrown as an uncaught
    exception: the promise [doBackup] returns never settles, the spinner
    started for [c] is never stopped, and the run stops there, as a run
    over a database listing cut after [c] does. *)
Theorem backup_never_settles (w : world E) (pre post : list (collection E))
    (c : collection E) (message : jsstring) :
  online w = true ->
  db w = pre ++ c :: post ->
  exists_path (backupFolderAt this (clock w)) (fs w) = false ->
  fst (backupLoop this (backupFolderAt this (clock w)) pre (folderMade this w))
  = Resolved tt ->
  eligible c = true ->
  writeError (fileOf this (backupFolderAt this (clock w)) c)
    (fs (snd (backupLoop this (backupFolderAt this (clock w)) pre (folderMade this w))))
  = Some message ->
  fst (doBackup this w) = None
  /\ snd (doBackup this w) =
     set_db (db w) (snd (doBackup this (set_db (pre ++ [c]) w)))
  /\ trace (snd (doBackup this w))
     = trace (snd (backupLoop this (backupFolderAt this (clock w)) pre
                     (folderMade this w)))
         ++ [SpinnerRun (lit "Backing up " ++ collectionName c ++ lit " ...");
             Uncaught message].
Proof.
  intros Ho Hd Hm Hpre Hc Hopen.
  assert (Hstop : forall u,
            fst (_backupCollection c (fileOf this (backupFolderAt this (clock w)) c)
                   (backupParsersOptions E (format this))
                   (snd (backupLoop this (backupFolderAt this (clock w)) pre
                           (folderMade this w)))) <> Resolved u).
  { intros u. unfold _backupCollection. cbn [fs emit]. rewrite Hopen. discriminate. }
  destruct (@doBackup_stops_at w pre post c (db w) Ho Hm Hpre Hc Hstop) as [H1 H2].
  destruct (@doBackup_stops_at w pre [] c (db w) Ho Hm Hpre Hc Hstop) as [H3 H4].
  replace (set_db (pre ++ c :: post) w) with w in H1, H2
    by (rewrite <- Hd; unfold set_db; symmetry; apply world_eta).
  unfold doBackup.
  destruct (doBackupPromise this w) as [r1 w1].
  destruct (doBackupPromise this (set_db (pre ++ [c]) w)) as [r2 w2].
  cbn [fst snd] in *. subst r1 w1 r2 w2.
  unfold _backupCollection. cbn [fs emit]. rewrite Hopen. cbn [fst snd].
  rewrite Hd. repeat split.
  cbn [trace set_db emit]. now rewrite <- app_assoc.
Qed.

(** X10: when the folder of the backup exists already, [doBackup]
    resolves with the error sentence of [mkdirSync], and nothing is done:
    no collection is read, no file is written. *)
Theorem doBackup_folder_exists (w : world E) :
  online w = true ->
  db w <> [] ->
  exists_path (backupFolderAt this (clock w)) (fs w) = true ->
  doBackup this w =
  (Some (lit "Error while backing up database. Error: EEXIST: file already exists, mkdir '"
           ++ backupFolderAt this (clock w) ++ lit "'"), w).
Proof.
  intros Ho Hd Hex. unfold doBackup, doBackupPromise, connected. rewrite Ho.
  destruct (db w) as [|c cs] eqn:Hdb; [contradiction|]. simpl Nat.eqb. cbv iota.
  unfold _backupCollections, mkdirSync. rewrite Hex. reflexivity.
Qed.

Lemma backupLoop_system_only (bf : jsstring) (cs : list (collection E)) (w : world E) :
  (forall c, In c cs -> _systemCollection (collectionName c) = true) ->
  backupLoop this bf cs w = (Resolved tt, w).
Proof.
  induction cs as [|c cs IH]; intros H; [reflexivity|].
  rewrite backupLoop_system by (apply H; now left).
  apply IH. intros x Hx. apply H. now right.
Qed.

(** X11: a database that has collections, all of them system
    collections, is backed up with success into a folder that stays
    empty: the folder is made and nothing else happens. *)
Theorem doBackup_system_only (w : world E) :
  online w = true ->
  db w <> [] ->
  (forall c, In c (db w) -> _systemCollection (collectionName c) = true) ->
  exists_path (backupFolderAt this (clock w)) (fs w) = false ->
  doBackup this w =
  (Some (lit "Backup is ready. Path to backup is "
           ++ backupFolderAt this (clock w) ++ lit "."),
   set_fs (fs w ++ [(backupFolderAt this (clock w), Dir E)]) w).
Proof.
  intros Ho Hd Hsys Hex. unfold doBackup, doBackupPromise, connected. rewrite Ho.
  destruct (db w) as [|c cs] eqn:Hdb; [contradiction|]. simpl Nat.eqb. cbv iota.
  unfold _backupCollections, mkdirSync. rewrite Hex. unfold bind.
  rewrite Hdb, backupLoop_system_only by exact Hsys. reflexivity.
Qed.

End BackupExtras.

Lemma backup_aborts_at_read_failure_witness :
  fst (doBackup Shop.this Shop.busy)
  = Some (lit "Error while backing up database. Can't back up orders. cursor killed")
  /\ stops (trace (snd (doBackup Shop.this Shop.busy))) = 3
  /\ runs (trace (snd (doBackup Shop.this Shop.busy))) = 2.
Proof.
  split; [|split; reflexivity].
  exact (proj1 (@backup_aborts_at_read_failure Shop.flaky Shop.this Shop.busy
                  [Shop.users] [Shop.carts] Shop.orders 1 (lit "cursor killed")
                  eq_refl eq_refl eq_refl eq_refl eq_refl eq_refl eq_refl)).
Defined.

Lemma backup_never_settles_witness :
  fst (doBackup Shop.this Shop.nested) = None.
Proof.
  exact (proj1 (@backup_never_settles Shop.env Shop.this Shop.nested
                  [Shop.users] [Shop.orders] (lit "logs/2018", [7; 8]%N)
                  (lit "ENOENT: no such file or directory, open '/backups/1541116800000_shop/logs/2018.json'")
                  eq_refl eq_refl eq_refl eq_refl eq_refl eq_refl)).
Defined.

Lemma doBackup_one_spinner_each_witness :
  runs (trace (snd (doBackup Shop.this Shop.source))) = 2.
Proof.
  exact (@doBackup_one_spinner_each Shop.env Shop.this Shop.source
           (lit "/backups/1541116800000_shop") eq_refl).
Defined.

Lemma doBackup_folder_exists_witness :
  fst (doBackup Shop.this Shop.taken)
  = Some (lit "Error while backing up database. Error: EEXIST: file already exists, mkdir '/backups/1541116800000_shop'")
  /\ snd (doBackup Shop.this Shop.taken) = Shop.taken.
Proof.
  rewrite (@doBackup_folder_exists Shop.env Shop.this Shop.taken eq_refl)
    by (discriminate || reflexivity).
  split; reflexivity.
Defined.

Lemma doBackup_system_only_witness :
  fst (doBackup Shop.this Shop.systemDb)
  = Some (lit "Backup is ready. Path to backup is /backups/1541116800000_shop.")
  /\ readdirSync (lit "/backups/1541116800000_shop/")
       (fs (snd (doBackup Shop.this Shop.systemDb))) = inr [].
Proof.
  rewrite (@doBackup_system_only Shop.env Shop.this Shop.systemDb eq_refl).
  - split; reflexivity.
  - discriminate.
  - intros c [<-|[<-|[]]]; reflexivity.
  - reflexivity.
Defined.

(** ** Restore runs *)

Section RestoreExtras.

Variable E : Env.
Variable this : config.

Lemma restoreLoop_settles (f : filesystem E) (files : list jsstring) (w : world E) :
  fs w = f ->
  (forall file dataFormat content,
     In file files ->
     truthy (_getDataFormat E file) = Some dataFormat ->
     readStream (path this ++ file) f = inr content ->
     exists document documents,
       restoreParsersOptions E dataFormat content = Some (document :: documents)) ->
  (forall name held documents, bulk_fault E name held documents = None) ->
  fst (restoreLoop this files w) <> Unsettled.
Proof.
  intros Hfs Hdec Hbulk.
  revert w Hfs; induction files as [|file files IH]; intros w Hfs; [discriminate|].
  destruct (truthy (_getDataFormat E file)) as [dataFormat|] eqn:Hf.
  - rewrite (restoreLoop_restore _ _ _ _ Hf). unfold _restoreCollection.
    cbn [fs emit set_db serve set_inflight]. rewrite Hfs.
    destruct (readStream _ _) as [message|content] eqn:Hread; [discriminate|].
    destruct (Hdec file dataFormat content (or_introl eq_refl) Hf Hread)
      as (document & documents & ->).
    unfold bulkWrite. rewrite Hbulk. apply IH.
    + intros x fmt bs Hx. apply Hdec. now right.
    + exact Hfs.
  - rewrite (restoreLoop_skip _ _ _ _ Hf). apply IH.
    + intros x fmt bs Hx. apply Hdec. now right.
    + exact Hfs.
Qed.

(** X12: when [readData] resolves with at least one document on the
    content of every file of the directory that has a known format and
    can be read, and no bulk write is refused, the promise [doRestore]
    returns resolves, and with one of two sentences: that the database is
    restored, or that there was an error while restoring, with a
    detail. *)
Theorem doRestore_sentences (w : world E) :
  (forall files file dataFormat content,
     readdirSync (path this) (fs w) = inr files ->
     In file files ->
     truthy (_getDataFormat E file) = Some dataFormat ->
     readStream (path this ++ file) (fs w) = inr content ->
     exists document documents,
       restoreParsersOptions E dataFormat content = Some (document :: documents)) ->
  (forall name held documents, bulk_fault E name held documents = None) ->
  exists sentence,
    fst (doRestore this w) = Some sentence
    /\ (sentence = lit "Database restored"
        \/ startsWith sentence (lit "Error while restoring database. ") = true).
Proof.
  intros Hdec Hbulk.
  assert (Hs : fst (doRestorePromise this w) <> Unsettled).
  { unfold doRestorePromise, connected.
    destruct (online w); [|discriminate].
    destruct (readdirSync (path this) (fs w)) as [e|files] eqn:Hr; [discriminate|].
    destruct (Nat.eqb _ _); [discriminate|].
    unfold bind, _dropCollections, _restoreCollections. cbn [fs set_inflight].
    rewrite Hr. apply (@restoreLoop_settles (fs w)); [reflexivity| |exact Hbulk].
    intros file dataFormat content. now apply Hdec. }
  unfold doRestore.
  destruct (doRestorePromise this w) as [[[]|e|] w']; cbn [fst] in *.
  - eexists. split; [reflexivity|]. now left.
  - eexists. split; [reflexivity|]. right. apply startsWith_app.
  - congruence.
Qed.

(** X13: when [readData] does not resolve on the content of a file (the
    files listed before it are dealt with), the promise [doRestore]
    returns never settles; the files listed after that file are not
    processed, and the spinner started for it is the last thing the
    run does: it is never stopped. *)
Theorem restore_never_settles (w : world E) (pre post : list jsstring)
    (file dataFormat : jsstring) (content : bytes E) :
  online w = true ->
  readdirSync (path this) (fs w) = inr (pre ++ file :: post) ->
  fst (restoreLoop this pre (snd (_dropCollections w))) = Resolved tt ->
  truthy (_getDataFormat E file) = Some dataFormat ->
  readStream (path this ++ file) (fs w) = inr content ->
  restoreParsersOptions E dataFormat content = None ->
  fst (doRestore this w) = None
  /\ restoreLoop this (pre ++ file :: post) (snd (_dropCollections w))
     = restoreLoop this (pre ++ [file]) (snd (_dropCollections w))
  /\ trace (snd (doRestore this w))
     = trace (snd (restoreLoop this pre (snd (_dropCollections w))))
         ++ [SpinnerRun (lit "Restoring " ++ replace file (lit "." ++ dataFormat) [])].
Proof.
  intros Ho Hr Hpre Hf Hread Hdec.
  assert (Hrun : forall tail,
    restoreLoop this (pre ++ file :: tail) (snd (_dropCollections w)) =
    (Unsettled,
     emit (SpinnerRun (lit "Restoring " ++ replace file (lit "." ++ dataFormat) []))
       (set_db (create (replace file (lit "." ++ dataFormat) [])
                  (db (serve (snd (restoreLoop this pre (snd (_dropCollections w)))))))
          (serve (snd (restoreLoop this pre (snd (_dropCollections w)))))))).
  { intros tail. rewrite restoreLoop_app.
    pose proof (restoreLoop_fs this pre (snd (_dropCollections w))) as Hfs.
    destruct (restoreLoop this pre (snd (_dropCollections w))) as [r w1].
    simpl in Hpre, Hfs. subst r.
    rewrite (restoreLoop_restore _ _ _ _ Hf). unfold _restoreCollection.
    simpl fs. rewrite Hfs. simpl fs. rewrite Hread, Hdec. reflexivity. }
  split; [|split].
  - rewrite (doRestore_listed _ _ Ho Hr) by (now destruct pre).
    rewrite Hrun. reflexivity.
  - now rewrite !Hrun.
  - rewrite (doRestore_listed _ _ Ho Hr) by (now destruct pre).
    rewrite Hrun. reflexivity.
Qed.


Lemma restoreLoop_spinner (files : list jsstring) (w : world E) :
  match fst (restoreLoop this files w) with
  | Unsettled =>
      runs (trace (snd (restoreLoop this files w))) + stops (trace w)
      = S (stops (trace (snd (restoreLoop this files w))) + runs (trace w))
  | _ =>
      runs (trace (snd (restoreLoop this files w))) + stops (trace w)
      = stops (trace (snd (restoreLoop this files w))) + runs (trace w)
  end.
Proof.
  revert w; induction files as [|file files IH]; intros w; [simpl; lia|].
  destruct (truthy (_getDataFormat E file)) as [dataFormat|] eqn:Hf.
  - rewrite (restoreLoop_restore _ _ _ _ Hf). unfold _restoreCollection.
    destruct (readStream _ _) as [message|content].
    + cbn [fst snd trace emit set_db serve set_inflight].
      rewrite !runs_snoc, !stops_snoc. simpl. lia.
    + destruct (restoreParsersOptions E dataFormat content) as [documents|].
      * destruct (bulkWrite _ _ _) as [[results|] d].
        -- match goal with
           | |- context [restoreLoop this files ?v] => specialize (IH v); revert IH
           end.
           destruct (fst (restoreLoop this files _));
             cbn [trace emit set_db serve set_inflight];
             rewrite !runs_snoc, !stops_snoc; simpl; lia.
        -- cbn [fst snd trace emit set_db serve set_inflight].
           rewrite !runs_snoc, !stops_snoc. simpl. lia.
      * cbn [fst snd trace emit set_db serve set_inflight].
        rewrite !runs_snoc, !stops_snoc. simpl. lia.
  - rewrite (restoreLoop_skip _ _ _ _ Hf).
    specialize (IH (emit (LogInfo (cantRead E file)) w)). revert IH.
    destruct (fst (restoreLoop this files _));
      cbn [trace emit]; rewrite !runs_snoc, !stops_snoc; simpl; lia.
Qed.

(** X14: a restore run that settles has stopped the spinner as often as it
    has started it; a run that never settles has started it once more
    than it has stopped it. *)
Theorem doRestore_spinner (w : world E) :
  match fst (doRestore this w) with
  | Some _ =>
      runs (trace (snd (doRestore this w))) + stops (trace w)
      = stops (trace (snd (doRestore this w))) + runs (trace w)
  | None =>
      runs (trace (snd (doRestore this w))) + stops (trace w)
      = S (stops (trace (snd (doRestore this w))) + runs (trace w))
  end.
Proof.
  unfold doRestore, doRestorePromise, connected.
  destruct (online w); [|simpl; lia].
  destruct (readdirSync (path this) (fs w)) as [e|files] eqn:Hr; [simpl; lia|].
  destruct (Nat.eqb _ _); [simpl; lia|].
  unfold bind, _dropCollections, _restoreCollections. cbn [fs set_inflight].
  rewrite Hr.
  pose proof (restoreLoop_spinner files
                (set_inflight
                   (inflight w ++
                    map (fun c => (collectionName c, drop_delay E (collectionName c)))
                      (filter (fun c => negb (_systemCollection (collectionName c))) (db w)))
                   w)) as H.
  destruct (restoreLoop this files _) as [[[]|e|] w']; simpl in *; exact H.
Qed.

(** X15: a restore run never writes to the file system, whatever it
    does to the database. *)
Theorem doRestore_reads_only (w : world E) :
  fs (snd (doRestore this w)) = fs w.
Proof.
  unfold doRestore, doRestorePromise, connected.
  destruct (online w); [|reflexivity].
  destruct (readdirSync (path this) (fs w)) as [e|files] eqn:Hr; [reflexivity|].
  destruct (Nat.eqb _ _); [reflexivity|].
  unfold bind, _dropCollections, _restoreCollections. cbn [fs set_inflight].
  rewrite Hr.
  pose proof (restoreLoop_fs this files
                (set_inflight
                   (inflight w ++
                    map (fun c => (collectionName c, drop_delay E (collectionName c)))
                      (filter (fun c => negb (_systemCollection (collectionName c))) (db w)))
                   w)) as H.
  destruct (restoreLoop this files _) as [[[]|e|] w']; simpl in *; exact H.
Qed.

Lemma quiesce_idle (w : world E) : inflight w = [] -> quiesce w = w.
Proof. intros H. destruct w. simpl in *. subst. reflexivity. Qed.

(** X16: when the connection fails, neither operation reports the error of
    the connection: [client] is undefined, [client.db] throws, and the
    sentence carries that [TypeError].  Nothing is read or written: no
    folder is made, no collection is dropped. *)
Theorem connection_failure (w : world E) :
  online w = false ->
  inflight w = [] ->
  doBackup this w =
    (Some (lit "Error while backing up database. "
             ++ toString (ErrObject (lit "TypeError") (null_client E))), w)
  /\ doRestore this w =
     (Some (lit "Error while restoring database. "
              ++ toString (ErrObject (lit "TypeError") (null_client E))), w).
Proof.
  intros Ho Hq. unfold doBackup, doBackupPromise, doRestore, doRestorePromise, connected.
  rewrite Ho. rewrite (quiesce_idle _ Hq). split; reflexivity.
Qed.

(** X17: when the restore directory cannot be listed, or has no entry,
    [doRestore] resolves with an error sentence (the one of
    [readdirSync], or that no files are found) and asks for no drop:
    the world is as it was. *)
Theorem doRestore_nothing_to_restore (w : world E) :
  online w = true ->
  inflight w = [] ->
  (forall file files, readdirSync (path this) (fs w) <> inr (file :: files)) ->
  doRestore this w =
  (Some (lit "Error while restoring database. "
           ++ match readdirSync (path this) (fs w) with
              | inl e => toString e
              | inr _ => lit "Files are not fould in backup folder"
              end), w).
Proof.
  intros Ho Hq Hnone. unfold doRestore, doRestorePromise, connected. rewrite Ho.
  destruct (readdirSync (path this) (fs w)) as [e|[|file files]].
  - now rewrite (quiesce_idle _ Hq).
  - simpl. now rewrite (quiesce_idle _ Hq).
  - exfalso. now apply (Hnone file files).
Qed.

Lemma restoreLoop_all_skipped (files : list jsstring) (w : world E) :
  (forall file, In file files -> truthy (_getDataFormat E file) = None) ->
  fst (restoreLoop this files w) = Resolved tt
  /\ db (snd (restoreLoop this files w)) = db w
  /\ inflight (snd (restoreLoop this files w)) = inflight w.
Proof.
  revert w; induction files as [|file files IH]; intros w H; [repeat split|].
  rewrite restoreLoop_skip by (apply H; now left).
  apply (IH (emit (LogInfo (cantRead E file)) w)). intros f Hf. apply H. now right.
Qed.

(** X18: a restore from a directory that has entries, none of which the
    loop takes for a backup file, resolves that the database is restored,
    and what it leaves of the database is its system collections: every
    other collection is dropped, and none is created.  This holds whenever
    the drop requests are served. *)
Theorem doRestore_without_backup_files (w : world E) (files : list jsstring) :
  online w = true ->
  inflight w = [] ->
  readdirSync (path this) (fs w) = inr files ->
  files <> [] ->
  (forall file, In file files -> truthy (_getDataFormat E file) = None) ->
  fst (doRestore this w) = Some (lit "Database restored")
  /\ db (snd (doRestore this w)) = systemOnly (db w).
Proof.
  intros Ho Hq Hr Hne Hskip.
  rewrite (doRestore_listed_pair _ _ Ho Hr Hne).
  destruct (restoreLoop_all_skipped files (snd (_dropCollections w)) Hskip)
    as (H1 & H2 & H3).
  cbn [fst snd]. rewrite H1. split; [reflexivity|].
  unfold quiesce. cbn [db set_db set_inflight]. rewrite H2, H3.
  cbn [snd _dropCollections db inflight set_inflight]. rewrite Hq. cbn [app].
  apply dropAll_requests.
Qed.

Lemma restoreLoop_notes (files : list jsstring) (w : world E) :
  fst (restoreLoop this files w) = Resolved tt ->
  notes (trace (snd (restoreLoop this files w))) = notes (trace w) + length files.
Proof.
  revert w; induction files as [|file files IH]; intros w; [simpl; lia|].
  destruct (truthy (_getDataFormat E file)) as [dataFormat|] eqn:Hf.
  - rewrite (restoreLoop_restore _ _ _ _ Hf). unfold _restoreCollection.
    destruct (readStream _ _) as [message|content]; [discriminate|].
    destruct (restoreParsersOptions E dataFormat content) as [documents|];
      [|discriminate].
    destruct (bulkWrite _ _ _) as [[results|] d]; [|discriminate].
    intros H. rewrite (IH _ H). cbn [trace emit set_db serve set_inflight].
    rewrite !notes_snoc. simpl. lia.
  - rewrite (restoreLoop_skip _ _ _ _ Hf). intros H. rewrite (IH _ H).
    cbn [trace emit]. rewrite notes_snoc. simpl. lia.
Qed.

(** X19: a restore that resolves that the database is restored has
    written one [logInfo] note for every entry of the directory: the
    counts of a file it has restored, or that it cannot read the file. *)
Theorem doRestore_one_note_each (w : world E) (files : list jsstring) :
  readdirSync (path this) (fs w) = inr files ->
  fst (doRestore this w) = Some (lit "Database restored") ->
  notes (trace (snd (doRestore this w))) = notes (trace w) + length files.
Proof.
  intros Hr. unfold doRestore, doRestorePromise, connected.
  destruct (online w); [|intros H; injection H as H; cbn in H; discriminate H].
  rewrite Hr. destruct files as [|file files]; simpl Nat.eqb; cbv iota.
  - intros H. injection H as H. cbn in H. discriminate H.
  - unfold bind, _dropCollections, _restoreCollections. cbn [fs set_inflight].
    rewrite Hr.
    pose proof (restoreLoop_notes (file :: files)
                  (set_inflight
                     (inflight w ++
                      map (fun c => (collectionName c, drop_delay E (collectionName c)))
                        (filter (fun c => negb (_systemCollection (collectionName c)))
                           (db w)))
                     w)) as H.
    destruct (restoreLoop this (file :: files) _) as [[[]|e|] w']; cbn [fst snd] in *.
    + intros _. cbn [trace quiesce set_db set_inflight]. now apply H.
    + intros H0. injection H0 as H0. cbn in H0. discriminate H0.
    + discriminate.
Qed.

End RestoreExtras.

(** ** What a restore leaves of the database *)

Section RestoreLeaves.

Variable E : Env.
Variable this : config.

Lemma names_drop_gone (d : dbstate E) (name : jsstring) :
  ~ In name (names (drop name d)).
Proof.
  unfold names, drop. intros H. apply in_map_iff in H as [c [Hc Hin]].
  apply filter_In in Hin as [_ Hin]. rewrite Hc, eqs_refl in Hin. discriminate.
Qed.

Lemma names_dropAll_gone (rs : list (jsstring * nat)) (d : dbstate E)
    (r : jsstring * nat) :
  In r rs -> ~ In (fst r) (names (dropAll rs d)).
Proof.
  revert d; induction rs as [|x rs IH]; intros d [].
  - subst x. intros H. unfold dropAll in H. simpl in H.
    apply names_dropAll_incl in H. now apply names_drop_gone in H.
  - unfold dropAll. simpl. now apply IH.
Qed.

Lemma pending_serve (name : jsstring) (w : world E) :
  pending name w -> pending name (serve w).
Proof.
  unfold pending, serve. cbn [db inflight set_db set_inflight]. intros H Hin.
  pose proof Hin as Hin0. apply names_dropAll_incl in Hin0.
  apply H in Hin0. apply in_map_iff in Hin0 as [r [Hr Hin0]].
  destruct (due r) eqn:Hdue.
  - exfalso. apply (@names_dropAll_gone (filter due (inflight w)) (db w) r).
    + apply filter_In. now split.
    + now rewrite Hr.
  - apply in_map_iff. exists (fst r, Nat.pred (snd r)). split; [exact Hr|].
    apply in_map_iff. exists r. split; [reflexivity|].
    apply filter_In. split; [exact Hin0|]. now rewrite Hdue.
Qed.

Lemma pending_restoreLoop (name : jsstring) (files : list jsstring) (w : world E) :
  (forall file, In file files -> targetOf E file <> Some name) ->
  pending name w -> pending name (snd (restoreLoop this files w)).
Proof.
  revert w; induction files as [|file files IH]; intros w Ht Hp; [exact Hp|].
  assert (Ht' : forall f, In f files -> targetOf E f <> Some name)
    by (intros f Hf; apply Ht; now right).
  destruct (truthy (_getDataFormat E file)) as [dataFormat|] eqn:Hf.
  - rewrite (restoreLoop_restore _ _ _ _ Hf).
    assert (Hne : name <> replace file (lit "." ++ dataFormat) []).
    { intros Heq. apply (Ht file); [now left|]. unfold targetOf. now rewrite Hf, Heq. }
    assert (Hc : pending name
              (set_db (create (replace file (lit "." ++ dataFormat) []) (db (serve w)))
                      (serve w))).
    { pose proof (pending_serve Hp) as Hs. unfold pending in *.
      cbn [db inflight set_db]. intros Hin.
      apply names_create_inv in Hin as [Hin|Hin]; [now apply Hs|contradiction]. }
    unfold _restoreCollection.
    destruct (readStream _ _) as [message|content]; [exact Hc|].
    destruct (restoreParsersOptions E dataFormat content) as [documents|]; [|exact Hc].
    assert (Hw : In name (names (snd (bulkWrite (replace file (lit "." ++ dataFormat) [])
                                documents
                                (create (replace file (lit "." ++ dataFormat) [])
                                   (db (serve w)))))) ->
                 In name (map fst (inflight (serve w)))).
    { intros Hin. apply (@names_bulkWrite_inv E) in Hin as [Hin|Hin]; [|contradiction].
      now apply Hc. }
    cbn [db emit set_db].
    destruct (bulkWrite _ _ _) as [[results|] d]; cbn [snd] in Hw.
    + apply IH; [exact Ht'|]. unfold pending. cbn [db inflight set_db emit]. exact Hw.
    + unfold pending. cbn [db inflight set_db emit snd]. exact Hw.
  - rewrite (restoreLoop_skip _ _ _ _ Hf). apply IH; [exact Ht'|exact Hp].
Qed.

(** X20: after a restore that has listed its directory, a collection of
    the database is a system collection the database had before, or the
    collection a file of the directory goes to: every other collection is
    dropped, whether a file stands for it or not, and in whatever order
    the drop requests are served. *)
Theorem doRestore_leaves (w : world E) (files : list jsstring) (name : jsstring) :
  online w = true ->
  inflight w = [] ->
  readdirSync (path this) (fs w) = inr files ->
  files <> [] ->
  In name (names (db (snd (doRestore this w)))) ->
  (_systemCollection name = true /\ In name (names (db w)))
  \/ exists file, In file files /\ targetOf E file = Some name.
Proof.
  intros Ho Hq Hr Hne Hin.
  rewrite (doRestore_listed_pair _ _ Ho Hr Hne) in Hin.
  cbn [snd quiesce db set_db set_inflight] in Hin.
  pose proof Hin as Hloop. apply names_dropAll_incl in Hloop.
  apply names_restoreLoop in Hloop as [Hold|Htarget]; [|now right].
  cbn [snd _dropCollections db set_inflight] in Hold.
  destruct (_systemCollection name) eqn:Hs; [left; now split|].
  right.
  assert (Hdec : (exists file, In file files /\ targetOf E file = Some name)
                 \/ forall file, In file files -> targetOf E file <> Some name).
  { clear. induction files as [|f fs IH].
    - right. intros file [].
    - destruct IH as [[file [H1 H2]]|IH]; [left; exists file; split; [now right|exact H2]|].
      destruct (targetOf E f) as [t|] eqn:Ht.
      + destruct (eqs t name) eqn:Heq.
        * apply eqs_eq in Heq. subst t. left. exists f. split; [now left|exact Ht].
        * right. intros file [<-|Hf]; [|now apply IH].
          rewrite Ht. intros H. injection H as H. subst t.
          now rewrite eqs_refl in Heq.
      + right. intros file [<-|Hf]; [|now apply IH]. now rewrite Ht. }
  destruct Hdec as [Hyes|Hno]; [exact Hyes|]. exfalso.
  assert (Hp0 : pending name (snd (_dropCollections w))).
  { unfold pending. cbn [snd _dropCollections db inflight set_inflight].
    intros _. rewrite Hq. cbn [app]. rewrite map_map. cbn [fst].
    apply in_map_iff in Hold as [c [Hc Hcin]].
    apply in_map_iff. exists c. split; [exact Hc|].
    apply filter_In. split; [exact Hcin|]. now rewrite Hc, Hs. }
  pose proof (pending_restoreLoop files Hno Hp0) as Hp.
  unfold pending in Hp.
  pose proof Hin as Hin1. apply names_dropAll_incl in Hin1.
  apply Hp in Hin1. apply in_map_iff in Hin1 as [r [Hr1 Hr2]].
  apply (@names_dropAll_gone _
           (db (snd (restoreLoop this files (snd (_dropCollections w))))) r Hr2).
  now rewrite Hr1.
Qed.

Lemma late_restoreLoop (name : jsstring) (files : list jsstring) (w : world E)
    (delay : nat) :
  In (name, delay) (inflight w) ->
  length files <= delay ->
  exists delay', In (name, delay') (inflight (snd (restoreLoop this files w))).
Proof.
  revert w delay; induction files as [|file files IH]; intros w delay Hin Hlen.
  - now exists delay.
  - destruct (truthy (_getDataFormat E file)) as [dataFormat|] eqn:Hf.
    + rewrite (restoreLoop_restore _ _ _ _ Hf).
      assert (Hs : In (name, Nat.pred delay) (inflight (serve w))).
      { unfold serve. cbn [inflight set_inflight].
        apply in_map_iff. exists (name, delay). split; [reflexivity|].
        apply filter_In. split; [exact Hin|]. unfold due. simpl in *.
        destruct delay; [lia|reflexivity]. }
      unfold _restoreCollection.
      destruct (readStream _ _) as [message|content]; [now exists (Nat.pred delay)|].
      destruct (restoreParsersOptions E dataFormat content) as [documents|];
        [|now exists (Nat.pred delay)].
      destruct (bulkWrite _ _ _) as [[results|] d]; [|now exists (Nat.pred delay)].
      apply (IH _ (Nat.pred delay)); [exact Hs|]. simpl in Hlen. lia.
    + rewrite (restoreLoop_skip _ _ _ _ Hf).
      apply (IH _ delay); [exact Hin|]. simpl in Hlen. lia.
Qed.

(** X21: the driver does not wait for its drop requests.  When the
    server serves them only after the loop has created its collections
    (each request comes after at least as many creations as the directory
    has entries), no collection the database had before outlives the
    restore unless it is a system collection: one that the restore has
    just filled from its file is dropped with the others. *)
Theorem doRestore_late_drops (w : world E) (files : list jsstring) (name : jsstring) :
  online w = true ->
  inflight w = [] ->
  readdirSync (path this) (fs w) = inr files ->
  files <> [] ->
  (forall n, length files <= drop_delay E n) ->
  In name (names (db w)) ->
  _systemCollection name = false ->
  ~ In name (names (db (snd (doRestore this w)))).
Proof.
  intros Ho Hq Hr Hne Hlate Hin Hs.
  rewrite (doRestore_listed_pair _ _ Ho Hr Hne).
  cbn [snd quiesce db set_db set_inflight].
  destruct (@late_restoreLoop name files (snd (_dropCollections w)) (drop_delay E name))
    as [delay' Hd].
  - cbn [snd _dropCollections inflight set_inflight]. rewrite Hq. cbn [app].
    apply in_map_iff in Hin as [c [Hc Hcin]].
    apply in_map_iff. exists c. split; [now rewrite Hc|].
    apply filter_In. split; [exact Hcin|]. now rewrite Hc, Hs.
  - apply Hlate.
  - apply (@names_dropAll_gone _
             (db (snd (restoreLoop this files (snd (_dropCollections w)))))
             (name, delay') Hd).
Qed.

End RestoreLeaves.

(** ** A backup without files *)

(** X22: the two operations do not compose on a database that has system
    collections only.  Its backup is ready, into a new folder under which
    nothing lies; a restore from that folder finds no file, resolves with
    the error sentence that says so, and leaves its target as it is. *)
Theorem backup_system_only_then_restore (E : Env) (this : config) (w wt : world E) :
  online w = true ->
  db w <> [] ->
  (forall c, In c (db w) -> _systemCollection (collectionName c) = true) ->
  exists_path (backupFolderAt this (clock w)) (fs w) = false ->
  (forall p, In p (map fst (fs w)) ->
     startsWith p (backupFolderAt this (clock w) ++ lit "/") = false) ->
  online wt = true ->
  inflight wt = [] ->
  fs wt = fs (snd (doBackup this w)) ->
  fst (doBackup this w)
  = Some (lit "Backup is ready. Path to backup is "
            ++ backupFolderAt this (clock w) ++ lit ".")
  /\ doRestore (restoreFrom this (backupFolderAt this (clock w))) wt
     = (Some (lit "Error while restoring database. Files are not fould in backup folder"),
        wt).
Proof.
  intros Ho Hd Hsys Hex Hvacant Hot Hq Hfs.
  assert (Hb : doBackup this w =
    (Some (lit "Backup is ready. Path to backup is "
             ++ backupFolderAt this (clock w) ++ lit "."),
     set_fs (fs w ++ [(backupFolderAt this (clock w), Dir E)]) w)).
  { unfold doBackup, doBackupPromise, connected. rewrite Ho.
    destruct (db w) as [|c cs] eqn:Hdb; [contradiction|]. simpl Nat.eqb. cbv iota.
    unfold _backupCollections, mkdirSync. rewrite Hex. unfold bind.
    rewrite Hdb, backupLoop_system_only by exact Hsys. reflexivity. }
  rewrite Hb in *. split; [reflexivity|].
  cbn [snd fs set_fs] in Hfs.
  assert (Hlist : readdirSync (path (restoreFrom this (backupFolderAt this (clock w))))
                    (fs wt) = inr []).
  { rewrite Hfs.
    apply (@readdirSync_backup E this (backupFolderAt this (clock w)) [] (fs w)).
    - unfold exists_path in Hex. now destruct (lookup _ (fs w)).
    - exact Hvacant.
    - intros c []. }
  unfold doRestore, doRestorePromise, connected. rewrite Hot, Hlist. simpl.
  destruct wt. simpl in *. subst. reflexivity.
Qed.

(** ** The further properties at work in the shop *)

Lemma backup_system_only_then_restore_witness :
  doRestore (restoreFrom Shop.this (lit "/backups/1541116800000_shop"))
    (Shop.emptyTarget (snd (doBackup Shop.this Shop.systemDb)))
  = (Some (lit "Error while restoring database. Files are not fould in backup folder"),
     Shop.emptyTarget (snd (doBackup Shop.this Shop.systemDb))).
Proof.
  refine (proj2 (@backup_system_only_then_restore Shop.env Shop.this Shop.systemDb
                   (Shop.emptyTarget (snd (doBackup Shop.this Shop.systemDb)))
                   eq_refl _ _ eq_refl _ eq_refl eq_refl eq_refl)).
  - discriminate.
  - intros c [<-|[<-|[]]]; reflexivity.
  - intros p [<-|[<-|[]]]; reflexivity.
Defined.

Lemma doRestore_sentences_witness :
  exists sentence,
    fst (doRestore Shop.fromDump Shop.dump) = Some sentence
    /\ (sentence = lit "Database restored"
        \/ startsWith sentence (lit "Error while restoring database. ") = true).
Proof.
  apply (@doRestore_sentences Shop.env Shop.fromDump Shop.dump).
  - intros files file dataFormat content Hr Hin Hf Hread.
    vm_compute in Hr. injection Hr as <-.
    destruct Hin as [<-|[<-|[]]]; vm_compute in Hread; injection Hread as <-;
      eexists; eexists; reflexivity.
  - intros name held documents. reflexivity.
Defined.


Lemma restore_never_settles_witness :
  fst (doRestore Shop.fromDump Shop.garbled) = None.
Proof.
  exact (proj1 (@restore_never_settles Shop.undecodable Shop.fromDump Shop.garbled
                  [lit "users.json"] [lit "carts.json"] (lit "orders.json") (lit "json")
                  [0; 5]%N eq_refl eq_refl eq_refl eq_refl eq_refl eq_refl)).
Defined.

Lemma connection_failure_witness :
  fst (doBackup Shop.this Shop.offline)
  = Some (lit "Error while backing up database. TypeError: Cannot read property 'db' of undefined")
  /\ fst (doRestore Shop.fromDump Shop.offline)
     = Some (lit "Error while restoring database. TypeError: Cannot read property 'db' of undefined").
Proof.
  destruct (@connection_failure Shop.env Shop.this Shop.offline eq_refl eq_refl) as [H1 _].
  destruct (@connection_failure Shop.env Shop.fromDump Shop.offline eq_refl eq_refl)
    as [_ H2].
  rewrite H1, H2. split; reflexivity.
Defined.

Lemma doRestore_nothing_to_restore_witness :
  doRestore Shop.fromDump Shop.noFiles
  = (Some (lit "Error while restoring database. Files are not fould in backup folder"),
     Shop.noFiles).
Proof.
  rewrite (@doRestore_nothing_to_restore Shop.env Shop.fromDump Shop.noFiles eq_refl eq_refl).
  - reflexivity.
  - intros file files. vm_compute. discriminate.
Defined.

Lemma doRestore_without_backup_files_witness :
  fst (doRestore Shop.fromDump Shop.onlyNotes) = Some (lit "Database restored")
  /\ db (snd (doRestore Shop.fromDump Shop.onlyNotes))
     = [(lit "system.profile", [10]%N)].
Proof.
  apply (@doRestore_without_backup_files Shop.env Shop.fromDump Shop.onlyNotes
           [lit "notes.txt"; lit "README"] eq_refl eq_refl eq_refl).
  - discriminate.
  - intros file [<-|[<-|[]]]; reflexivity.
Defined.

Lemma doRestore_one_note_each_witness :
  notes (trace (snd (doRestore Shop.fromDump Shop.withNotes))) = 3.
Proof.
  exact (@doRestore_one_note_each Shop.env Shop.fromDump Shop.withNotes
           [lit "users.json"; lit "notes.txt"; lit "orders.json"] eq_refl eq_refl).
Defined.

Lemma doRestore_leaves_witness :
  (_systemCollection (lit "users") = true
   /\ In (lit "users") (names (db Shop.dump)))
  \/ exists file,
       In file [lit "users.json"; lit "orders.json"]
       /\ targetOf Shop.env file = Some (lit "users").
Proof.
  apply (@doRestore_leaves Shop.env Shop.fromDump Shop.dump
           [lit "users.json"; lit "orders.json"] (lit "users") eq_refl eq_refl eq_refl).
  - discriminate.
  - vm_compute. right. now left.
Defined.

Lemma doRestore_late_drops_witness :
  In (lit "users") (names (db Shop.refill))
  /\ ~ In (lit "users") (names (db (snd (doRestore Shop.fromDump Shop.refill)))).
Proof.
  split; [now left|].
  apply (@doRestore_late_drops Shop.late Shop.fromDump Shop.refill
           [lit "users.json"; lit "orders.json"] (lit "users") eq_refl eq_refl eq_refl).
  - discriminate.
  - intros n. simpl. lia.
  - now left.
  - reflexivity.
Defined.
